(** * A shallow embedding of [cleanData] (src/server/routes.ts, lines 79-305)

    The cleaning pipeline of DataDoctorPro: column standardization with
    type inference, deduplication, missing-value imputation, IQR outlier
    removal and type coercion.

    Modelling choices.
    - JavaScript numbers are [num]: [NaN] or a finite rational.  Only the
      finite decimal values that occur in the data are modelled; the
      infinities, [-0] and binary64 rounding are outside the model (the
      literal ["Infinity"] is read as NaN by the parsers below).
    - Strings are Rocq strings of ASCII characters; [toLowerCase], [\s] and
      [\w] are their ASCII versions.
    - [Date.parse] and [new Date] accept the ISO date-only format
      [YYYY-MM-DD] of strings and time values of numbers; other date
      formats, which V8 parses with implementation-defined heuristics, are
      treated as invalid dates.
    - Rows are objects on a heap (a list of rows indexed by location);
      datasets are arrays of locations.  Object literals and spreads
      allocate, property assignments write.  This keeps the sharing of row
      objects between the raw and the cleaned dataset visible.
    - Objects are association lists; [own_keys] enumerates them the way
      [Object.keys] does: array-index keys in ascending order first, then
      the other keys in insertion order. *)

From Stdlib Require Import ZArith QArith Qround Ascii String Lia.
From Stdlib Require Import Sorting.Sorted Lqa.
From stdpp Require Import base list gmap sets strings.

Local Open Scope string_scope.

(** ** JavaScript numbers *)

Inductive num :=
| NaN
| Fin (q : Q).

Definition isNaN (n : num) : bool :=
  match n with NaN => true | Fin _ => false end.

(** ** Characters *)

Definition code (c : ascii) : nat := nat_of_ascii c.

(** [\s] restricted to ASCII: tab, LF, VT, FF, CR and space. *)
Definition is_ws (c : ascii) : bool :=
  ((9 <=? code c)%nat && (code c <=? 13)%nat) || (code c =? 32)%nat.

Definition is_digit (c : ascii) : bool :=
  (48 <=? code c)%nat && (code c <=? 57)%nat.

Definition is_upper (c : ascii) : bool :=
  (65 <=? code c)%nat && (code c <=? 90)%nat.

Definition is_lower (c : ascii) : bool :=
  (97 <=? code c)%nat && (code c <=? 122)%nat.

(** [\w]: letters, digits and the underscore. *)
Definition is_word (c : ascii) : bool :=
  is_digit c || is_upper c || is_lower c || (code c =? 95)%nat.

Definition to_lower (c : ascii) : ascii :=
  if is_upper c then ascii_of_nat (code c + 32) else c.

(** Value of [c] as a digit in radix [r], if it is one. *)
Definition radix_digit (r : nat) (c : ascii) : option nat :=
  let n := code c in
  let v :=
    if is_digit c then Some (n - 48)%nat
    else if ((97 <=? n) && (n <=? 122))%nat then Some (n - 87)%nat
    else if ((65 <=? n) && (n <=? 90))%nat then Some (n - 55)%nat
    else None in
  match v with
  | Some d => if (d <? r)%nat then Some d else None
  | None => None
  end.

Fixpoint drop_ws (cs : list ascii) : list ascii :=
  match cs with
  | c :: t => if is_ws c then drop_ws t else cs
  | [] => []
  end.

(** [String.prototype.trim] and [trimStart]. *)
Definition trim (cs : list ascii) : list ascii := rev (drop_ws (rev (drop_ws cs))).
Definition trim_start (cs : list ascii) : list ascii := drop_ws cs.

(** Longest prefix of radix-[r] digits, with their values. *)
Fixpoint take_radix (r : nat) (cs : list ascii) : list nat * list ascii :=
  match cs with
  | c :: t =>
      match radix_digit r c with
      | Some d => let '(ds, rest) := take_radix r t in (d :: ds, rest)
      | None => ([], cs)
      end
  | [] => ([], [])
  end.

Definition digits_value (r : nat) (ds : list nat) : Z :=
  fold_left (fun acc d => acc * Z.of_nat r + Z.of_nat d)%Z ds 0%Z.

(** ** Number parsing *)

(** Exponent part [e[+-]digits] of a decimal literal; [(0, cs)] when
    there is none (an [e] without digits is not consumed). *)
Definition scan_exponent (cs : list ascii) : Z * list ascii :=
  match cs with
  | c :: t =>
      if Ascii.eqb c "e"%char || Ascii.eqb c "E"%char then
        let '(sgn, t') :=
          match t with
          | s :: t'' =>
              if Ascii.eqb s "+"%char then (1%Z, t'')
              else if Ascii.eqb s "-"%char then ((-1)%Z, t'')
              else (1%Z, t)
          | [] => (1%Z, t)
          end in
        match take_radix 10 t' with
        | ([], _) => (0%Z, cs)
        | (ds, rest) => ((sgn * digits_value 10 ds)%Z, rest)
        end
      else (0%Z, cs)
  | [] => (0%Z, [])
  end.

(** Longest prefix that is a StrUnsignedDecimalLiteral (without
    [Infinity]): its value and the rest of the input. *)
Definition scan_unsigned_decimal (cs : list ascii) : option (Q * list ascii) :=
  let '(ip, r1) := take_radix 10 cs in
  let '(fp, r2) :=
    match r1 with
    | c :: t => if Ascii.eqb c "."%char then take_radix 10 t else ([], r1)
    | [] => ([], [])
    end in
  match ip, fp with
  | [], [] => None
  | _, _ =>
      let '(e, r3) := scan_exponent r2 in
      let mant := (digits_value 10 (ip ++ fp) # Pos.of_nat 1)%Q in
      let scale := Qpower (inject_Z 10) (e - Z.of_nat (length fp))%Z in
      Some (Qred (mant * scale), r3)
  end.

Definition scan_decimal (cs : list ascii) : option (Q * list ascii) :=
  match cs with
  | c :: t =>
      if Ascii.eqb c "+"%char then scan_unsigned_decimal t
      else if Ascii.eqb c "-"%char then
        match scan_unsigned_decimal t with
        | Some (q, r) => Some (Qred (- q), r)
        | None => None
        end
      else scan_unsigned_decimal cs
  | [] => None
  end.

(** Radix prefix [0x], [0o] or [0b] of a numeric string. *)
Definition radix_prefix (c : ascii) : option nat :=
  if Ascii.eqb c "x"%char || Ascii.eqb c "X"%char then Some 16%nat
  else if Ascii.eqb c "o"%char || Ascii.eqb c "O"%char then Some 8%nat
  else if Ascii.eqb c "b"%char || Ascii.eqb c "B"%char then Some 2%nat
  else None.

(** [Number(s)] for a string [s] (StringToNumber). *)
Definition string_to_number (s : string) : num :=
  let decimal cs :=
    match scan_decimal cs with
    | Some (q, []) => Fin q
    | _ => NaN
    end in
  match trim (list_ascii_of_string s) with
  | [] => Fin 0
  | c0 :: c1 :: t =>
      match radix_prefix c1 with
      | Some r =>
          if Ascii.eqb c0 "0"%char then
            match take_radix r t with
            | ((_ :: _) as ds, []) => Fin (inject_Z (digits_value r ds))
            | _ => NaN
            end
          else decimal (c0 :: c1 :: t)
      | None => decimal (c0 :: c1 :: t)
      end
  | cs => decimal cs
  end.

(** [parseFloat(s)] for a string [s]. *)
Definition parse_float_string (s : string) : num :=
  match scan_decimal (trim_start (list_ascii_of_string s)) with
  | Some (q, _) => Fin q
  | None => NaN
  end.

(** [parseInt(s)] (no radix argument) for a string [s]. *)
Definition parse_int_string (s : string) : num :=
  let cs := trim_start (list_ascii_of_string s) in
  let '(sgn, cs1) :=
    match cs with
    | c :: t =>
        if Ascii.eqb c "-"%char then ((-1)%Z, t)
        else if Ascii.eqb c "+"%char then (1%Z, t)
        else (1%Z, cs)
    | [] => (1%Z, [])
    end in
  let '(r, cs2) :=
    match cs1 with
    | c0 :: c1 :: t =>
        if Ascii.eqb c0 "0"%char && (Ascii.eqb c1 "x"%char || Ascii.eqb c1 "X"%char)
        then (16%nat, t) else (10%nat, cs1)
    | _ => (10%nat, cs1)
    end in
  match take_radix r cs2 with
  | ([], _) => NaN
  | (ds, _) => Fin (inject_Z (sgn * digits_value r ds))
  end.

(** ** Number to string *)

Definition digit_char (d : N) : ascii := ascii_of_N (48 + d).

(** Decimal digits of [n], prepended to [acc]; the first round always
    emits a digit. *)
Fixpoint N_digits (fuel : nat) (n : N) (acc : string) : string :=
  match fuel with
  | O => acc
  | S f =>
      let acc' := String (digit_char (n mod 10)) acc in
      if (n / 10 =? 0)%N then acc' else N_digits f (n / 10)%N acc'
  end.

Definition N_to_decimal (n : N) : string := N_digits (S (N.size_nat n)) n "".

(** Fractional digits of [r / d] (with [r < d]), at most [fuel] of them. *)
Fixpoint frac_digits (fuel : nat) (r d : N) : string :=
  match fuel with
  | O => ""
  | S f =>
      if (r =? 0)%N then ""
      else String (digit_char (r * 10 / d)) (frac_digits f (r * 10 mod d) d)
  end.

(** [String(n)] for the numbers of the model: exact for integers and
    terminating decimals, other rationals are cut after 20 decimals. *)
Definition num_to_string (n : num) : string :=
  match n with
  | NaN => "NaN"
  | Fin q =>
      let q' := Qred q in
      let a := Z.to_N (Z.abs (Qnum q')) in
      let d := Npos (Qden q') in
      (if (Qnum q' <? 0)%Z then "-" else "")
        ++ N_to_decimal (a / d)
        ++ (if (a mod d =? 0)%N then "" else "." ++ frac_digits 20 (a mod d) d)
  end.

(** ** Dates *)

Definition is_leap (y : Z) : bool :=
  (Z.eqb (y mod 4) 0 && negb (Z.eqb (y mod 100) 0)) || Z.eqb (y mod 400) 0.

Definition days_in_month (y m : Z) : Z :=
  match m with
  | 2%Z => if is_leap y then 29 else 28
  | 4%Z | 6%Z | 9%Z | 11%Z => 30
  | _ => 31
  end.

(** Days since 1970-01-01 of a proleptic Gregorian date. *)
Definition days_from_civil (y m d : Z) : Z :=
  let y := if (m <=? 2)%Z then (y - 1)%Z else y in
  let era := (y / 400)%Z in
  let yoe := (y - era * 400)%Z in
  let mp := if (m >? 2)%Z then (m - 3)%Z else (m + 9)%Z in
  let doy := ((153 * mp + 2) / 5 + d - 1)%Z in
  let doe := (yoe * 365 + yoe / 4 - yoe / 100 + doy)%Z in
  (era * 146097 + doe - 719468)%Z.

(** Inverse of [days_from_civil]: (year, month, day). *)
Definition civil_from_days (z : Z) : Z * Z * Z :=
  let z := (z + 719468)%Z in
  let era := (z / 146097)%Z in
  let doe := (z - era * 146097)%Z in
  let yoe := ((doe - doe / 1460 + doe / 36524 - doe / 146096) / 365)%Z in
  let doy := (doe - (365 * yoe + yoe / 4 - yoe / 100))%Z in
  let mp := ((5 * doy + 2) / 153)%Z in
  let d := (doy - (153 * mp + 2) / 5 + 1)%Z in
  let m := if (mp <? 10)%Z then (mp + 3)%Z else (mp - 9)%Z in
  let y := (yoe + era * 400 + (if (m <=? 2)%Z then 1 else 0))%Z in
  (y, m, d).

Definition ms_per_day : Z := 86400000.

(** Time value of an ISO date-only string [YYYY-MM-DD] (UTC). *)
Definition parse_iso_date (s : string) : option Z :=
  match list_ascii_of_string s with
  | [y1; y2; y3; y4; s1; m1; m2; s2; d1; d2] =>
      if forallb is_digit [y1; y2; y3; y4; m1; m2; d1; d2]
         && Ascii.eqb s1 "-"%char && Ascii.eqb s2 "-"%char then
        let dv cs := digits_value 10 (map (fun c => code c - 48)%nat cs) in
        let y := dv [y1; y2; y3; y4] in
        let m := dv [m1; m2] in
        let d := dv [d1; d2] in
        if (1 <=? m)%Z && (m <=? 12)%Z && (1 <=? d)%Z && (d <=? days_in_month y m)%Z
        then Some (days_from_civil y m d * ms_per_day)%Z
        else None
      else None
  | _ => None
  end.

Fixpoint pad_left (n : nat) (s : string) : string :=
  match n with
  | O => s
  | S k => if (String.length s <? n)%nat then pad_left k ("0" ++ s) else s
  end.

(** Date part of [toISOString()] for a valid time value, i.e.
    [toISOString().split('T')[0]]. *)
Definition iso_date_part (t : Z) : string :=
  let '(y, m, d) := civil_from_days (Z.div t ms_per_day) in
  let ys :=
    if ((0 <=? y) && (y <=? 9999))%Z then pad_left 4 (N_to_decimal (Z.to_N y))
    else (if (y <? 0)%Z then "-" else "+") ++ pad_left 6 (N_to_decimal (Z.to_N (Z.abs y))) in
  ys ++ "-" ++ pad_left 2 (N_to_decimal (Z.to_N m))
     ++ "-" ++ pad_left 2 (N_to_decimal (Z.to_N d)).

(** ** Cells *)

(** A scalar cell value as read from CSV (strings) or spreadsheets
    (numbers, booleans), or written by the pipeline. *)
Inductive cell :=
| CNull
| CUndef
| CBool (b : bool)
| CNum (n : num)
| CStr (s : string).

(** [val === null || val === undefined || val === ""] *)
Definition is_missing (v : cell) : bool :=
  match v with
  | CNull | CUndef => true
  | CStr s => String.eqb s ""
  | _ => false
  end.

(** Truthiness of a value ([val && ...]). *)
Definition truthy (v : cell) : bool :=
  match v with
  | CNull | CUndef => false
  | CBool b => b
  | CNum NaN => false
  | CNum (Fin q) => negb (Qeq_bool q 0)
  | CStr s => negb (String.eqb s "")
  end.

(** [String(v)] *)
Definition to_js_string (v : cell) : string :=
  match v with
  | CNull => "null"
  | CUndef => "undefined"
  | CBool true => "true"
  | CBool false => "false"
  | CNum n => num_to_string n
  | CStr s => s
  end.

(** [Number(v)] *)
Definition js_Number (v : cell) : num :=
  match v with
  | CNull => Fin 0
  | CUndef => NaN
  | CBool b => Fin (if b then 1 else 0)
  | CNum n => n
  | CStr s => string_to_number s
  end.

(** [parseFloat(v)]; a number converts to a string that reads back as
    the same number. *)
Definition js_parseFloat (v : cell) : num :=
  match v with
  | CNum n => n
  | _ => parse_float_string (to_js_string v)
  end.

(** [parseInt(v)] *)
Definition js_parseInt (v : cell) : num := parse_int_string (to_js_string v).

(** [Date.parse(v)] *)
Definition js_Date_parse (v : cell) : num :=
  match parse_iso_date (to_js_string v) with
  | Some t => Fin (inject_Z t)
  | None => NaN
  end.

(** Time value of [new Date(v)], [None] for an invalid date. *)
Definition date_time_value (v : cell) : option Z :=
  let time_clip (n : num) :=
    match n with
    | Fin q =>
        let t := if Qle_bool 0 q then Qfloor q else (- Qfloor (- q))%Z in
        if (Z.abs t <=? 8640000000000000)%Z then Some t else None
    | NaN => None
    end in
  match v with
  | CStr s => parse_iso_date s
  | CUndef => None
  | _ => time_clip (js_Number v)
  end.

(** [new Date(v).toISOString().split('T')[0]]: [None] where
    [toISOString] throws a RangeError (invalid date). *)
Definition date_to_iso (v : cell) : option string :=
  option_map iso_date_part (date_time_value v).

(** ** Objects *)

(** A JavaScript object with data properties, as an association list in
    property-creation order. *)
Abbreviation obj A := (list (string * A)).

Fixpoint prop {A} (o : obj A) (k : string) : option A :=
  match o with
  | [] => None
  | (k', v) :: t => if String.eqb k k' then Some v else prop t k
  end.

(** [o[k] = v]: overwrite in place, or create the property at the end. *)
Fixpoint set_prop {A} (o : obj A) (k : string) (v : A) : obj A :=
  match o with
  | [] => [(k, v)]
  | (k', v') :: t => if String.eqb k k' then (k', v) :: t else (k', v') :: set_prop t k v
  end.

(** Property names, first creation first. *)
Fixpoint dedup_keys (l : list string) : list string :=
  match l with
  | [] => []
  | k :: t => k :: List.filter (fun k' => negb (String.eqb k k')) (dedup_keys t)
  end.

(** Array-index keys: canonical decimal integers below 2^32 - 1. *)
Definition index_value (k : string) : option N :=
  match list_ascii_of_string k with
  | [] => None
  | (c :: t) as cs =>
      if forallb is_digit cs && (negb (Ascii.eqb c "0"%char) || (length t =? 0)%nat) then
        let v := Z.to_N (digits_value 10 (map (fun c => code c - 48)%nat cs)) in
        if (v <? 4294967295)%N then Some v else None
      else None
  end.

Definition is_index (k : string) : bool :=
  match index_value k with Some _ => true | None => false end.

(** Stable insertion sort: [lt x y] says that [x] goes before [y]
    ([Array.prototype.sort] with a comparator, stable since ES2019). *)
Fixpoint insert_by {A} (lt : A -> A -> bool) (x : A) (l : list A) : list A :=
  match l with
  | [] => [x]
  | y :: t => if lt x y then x :: l else y :: insert_by lt x t
  end.

Definition sort_by {A} (lt : A -> A -> bool) (l : list A) : list A :=
  fold_left (fun acc x => insert_by lt x acc) l [].

Definition index_lt (a b : string) : bool :=
  match index_value a, index_value b with
  | Some x, Some y => (x <? y)%N
  | _, _ => false
  end.

(** [Object.keys(o)] *)
Definition own_keys {A} (o : obj A) : list string :=
  let ks := dedup_keys (map fst o) in
  sort_by index_lt (List.filter is_index ks)
    ++ List.filter (fun k => negb (is_index k)) ks.

(** [Object.entries(o)] *)
Definition entries {A} (o : obj A) : list (string * A) :=
  flat_map (fun k => match prop o k with Some v => [(k, v)] | None => [] end)
    (own_keys o).

(** ** Rows *)

Abbreviation row := (obj cell).

(** [row[col]] *)
Definition get (r : row) (k : string) : cell :=
  match prop r k with Some v => v | None => CUndef end.

(** The contents of [{ ...row }]. *)
Definition spread (r : row) : row := entries r.

(** ** JSON.stringify of a row *)

Definition dq : string := String (ascii_of_nat 34) "".

Definition hex_char (d : nat) : ascii :=
  if (d <? 10)%nat then ascii_of_nat (48 + d) else ascii_of_nat (87 + d).

Definition json_escape_char (c : ascii) : string :=
  let n := code c in
  if (n =? 34)%nat then "\" ++ dq
  else if (n =? 92)%nat then "\\"
  else if (n =? 8)%nat then "\b"
  else if (n =? 9)%nat then "\t"
  else if (n =? 10)%nat then "\n"
  else if (n =? 12)%nat then "\f"
  else if (n =? 13)%nat then "\r"
  else if (n <? 32)%nat then
    "\u00" ++ String (hex_char (n / 16)) (String (hex_char (n mod 16)) "")
  else String c "".

Definition json_quote (s : string) : string :=
  dq ++ String.concat "" (map json_escape_char (list_ascii_of_string s)) ++ dq.

Definition json_value (v : cell) : string :=
  match v with
  | CNull | CUndef => "null"
  | CBool true => "true"
  | CBool false => "false"
  | CNum NaN => "null"
  | CNum n => num_to_string n
  | CStr s => json_quote s
  end.

(** [JSON.stringify(row)]: properties holding [undefined] are skipped. *)
Definition json_stringify (r : row) : string :=
  "{" ++ String.concat ","
           (flat_map (fun '(k, v) =>
                        match v with
                        | CUndef => []
                        | _ => [json_quote k ++ ":" ++ json_value v]
                        end) (entries r))
      ++ "}".

(** ** Options and statistics *)

Inductive strategy := Mean | Median | Mode | Constant.

(** [z.infer<typeof processingOptionsSchema>] (shared schema): the
    booleans and the strategy carry their defaults after parsing. *)
Record options := mkOptions {
  removeOutliers : bool;
  fixDataTypes : bool;
  standardizeColumnNames : bool;
  missingValueStrategy : strategy;
  constantValue : option string
}.

Record rename_entry := mkEntry {
  original : string;
  cleaned : string;
  type : string
}.

Record stats := mkStats {
  totalRows : nat;
  totalColumns : nat;
  duplicatesRemoved : nat;
  nullValuesFixed : nat;
  columnsRenamed : list rename_entry;
  dataTypeSummary : obj nat;
  outlierCount : nat
}.

(** ** The heap, errors and the cleaning monad *)

Abbreviation loc := nat (only parsing).
Abbreviation heap := (list row) (only parsing).

(** The row object at location [l]. *)
Definition deref (h : heap) (l : loc) : row :=
  match h !! l with Some r => r | None => [] end.

Inductive js_error :=
| InvalidDataFormat   (** [throw new Error("Invalid data format")] *)
| TypeError.          (** a runtime TypeError of the engine *)

Record state := mkState { st_heap : heap; st_stats : stats }.

Definition M (A : Type) : Type := state -> js_error + (A * state).

Definition ret {A} (a : A) : M A := fun s => inr (a, s).

Definition bind {A B} (m : M A) (k : A -> M B) : M B :=
  fun s => match m s with
           | inl e => inl e
           | inr (a, s') => k a s'
           end.

Notation "'let*' x ':=' m 'in' k" := (bind m (fun x => k))
  (at level 200, x name, m at level 100, k at level 200).

Definition throw {A} (e : js_error) : M A := fun _ => inl e.

Definition lift {A} (r : js_error + A) : M A :=
  fun s => match r with inl e => inl e | inr a => inr (a, s) end.

Definition get_heap : M heap := fun s => inr (st_heap s, s).
Definition get_stats : M stats := fun s => inr (st_stats s, s).

Definition modify_stats (f : stats -> stats) : M unit :=
  fun s => inr (tt, mkState (st_heap s) (f (st_stats s))).

(** A new object with the given properties. *)
Definition alloc (r : row) : M loc :=
  fun s => inr (length (st_heap s), mkState (st_heap s ++ [r])%list (st_stats s)).

Definition read (l : loc) : M row := fun s => inr (deref (st_heap s) l, s).

(** [obj[k] = v] on the object at [l]. *)
Definition write (l : loc) (k : string) (v : cell) : M unit :=
  fun s => inr (tt, mkState (<[l := set_prop (deref (st_heap s) l) k v]> (st_heap s))
                            (st_stats s)).

(** [Array.prototype.map] with an effectful callback. *)
Fixpoint mapM {A B} (f : A -> M B) (l : list A) : M (list B) :=
  match l with
  | [] => ret []
  | x :: t => let* y := f x in let* ys := mapM f t in ret (y :: ys)
  end.

(** [reduce] / [forEach] over a list with a running accumulator. *)
Fixpoint foldM {A B} (f : B -> A -> M B) (acc : B) (l : list A) : M B :=
  match l with
  | [] => ret acc
  | x :: t => let* acc' := f acc x in foldM f acc' t
  end.

(** [arr.forEach(f)] *)
Fixpoint forEach {A} (f : A -> M unit) (l : list A) : M unit :=
  match l with
  | [] => ret tt
  | x :: t => let* _ := f x in forEach f t
  end.

Definition set_duplicatesRemoved (n : nat) (s : stats) : stats :=
  mkStats (totalRows s) (totalColumns s) n (nullValuesFixed s)
          (columnsRenamed s) (dataTypeSummary s) (outlierCount s).

Definition set_nullValuesFixed (n : nat) (s : stats) : stats :=
  mkStats (totalRows s) (totalColumns s) (duplicatesRemoved s) n
          (columnsRenamed s) (dataTypeSummary s) (outlierCount s).

Definition set_outlierCount (n : nat) (s : stats) : stats :=
  mkStats (totalRows s) (totalColumns s) (duplicatesRemoved s) (nullValuesFixed s)
          (columnsRenamed s) (dataTypeSummary s) n.

(** [stats.columnsRenamed.push(e)] and the [dataTypeSummary] tally. *)
Definition record_column (e : rename_entry) (s : stats) : stats :=
  let summary := dataTypeSummary s in
  let n := match prop summary (type e) with Some n => n | None => O end in
  mkStats (totalRows s) (totalColumns s) (duplicatesRemoved s) (nullValuesFixed s)
          (columnsRenamed s ++ [e])%list (set_prop summary (type e) (S n)) (outlierCount s).

(** ** Step 1: column standardization and type inference (lines 95-141) *)

(** [/\s+/g -> "_"] *)
Fixpoint collapse_ws (prev_ws : bool) (cs : list ascii) : list ascii :=
  match cs with
  | [] => []
  | c :: t =>
      if is_ws c then
        if prev_ws then collapse_ws true t else "_"%char :: collapse_ws true t
      else c :: collapse_ws false t
  end.

(** [col.toLowerCase().replace(/\s+/g, "_").replace(/[^\w_]/g, "")] *)
Definition clean_column_name (col : string) : string :=
  string_of_list_ascii
    (List.filter is_word (collapse_ws false (map to_lower (list_ascii_of_string col)))).

(** [arr.some(f)] with a callback that may throw. *)
Fixpoint js_some {A} (f : A -> js_error + bool) (l : list A) : js_error + bool :=
  match l with
  | [] => inr false
  | x :: t =>
      match f x with
      | inl e => inl e
      | inr true => inr true
      | inr false => js_some f t
      end
  end.

(** [val.includes(".")]: only strings have an [includes] method here. *)
Definition includes_dot (v : cell) : js_error + bool :=
  match v with
  | CStr s => inr (match String.index 0 "." s with Some _ => true | None => false end)
  | _ => inl TypeError
  end.

(** Type inference over the sample values of a column (lines 109-119). *)
Definition infer_type (sampleValues : list cell) : js_error + string :=
  if forallb (fun v => is_missing v || negb (isNaN (js_Number v))) sampleValues then
    match js_some (fun v => if truthy v then includes_dot v else inr false) sampleValues with
    | inl e => inl e
    | inr b => inr (if b then "float" else "integer")
    end
  else if forallb (fun v => is_missing v || negb (isNaN (js_Date_parse v))) sampleValues
  then inr "date"
  else inr "string".

Definition standardize (data : list loc) : M (list loc) :=
  let* h := get_heap in
  match data with
  | [] => throw TypeError
  | l0 :: _ =>
      let originalColumns := own_keys (deref h l0) in
      let* columnMapping :=
        foldM (fun (acc : obj string) col =>
                 let cleanedCol := clean_column_name col in
                 let* h := get_heap in
                 let sampleValues := map (fun l => get (deref h l) col) (firstn 100 data) in
                 let* dataType := lift (infer_type sampleValues) in
                 let* _ := modify_stats (record_column (mkEntry col cleanedCol dataType)) in
                 ret (set_prop (entries acc) col cleanedCol))
              [] originalColumns in
      mapM (fun l =>
              let* newRow := alloc [] in
              let* _ := forEach (fun '(originalCol, cleanedCol) =>
                                   let* row := read l in
                                   write newRow cleanedCol (get row originalCol))
                                (entries columnMapping) in
              ret newRow)
           data
  end.

(** ** Step 2: deduplication (lines 143-156) *)

(** [data.filter] keeping the first row of each [JSON.stringify] key; the
    number is the count of [stats.duplicatesRemoved++]. *)
Fixpoint dedup_filter (h : heap) (uniqueRows : gset string) (data : list loc)
  : list loc * nat :=
  match data with
  | [] => ([], O)
  | l :: t =>
      let rowStr := json_stringify (deref h l) in
      if decide (rowStr ∈ uniqueRows) then
        let '(kept, n) := dedup_filter h uniqueRows t in (kept, S n)
      else
        let '(kept, n) := dedup_filter h ({[rowStr]} ∪ uniqueRows) t in (l :: kept, n)
  end.

Definition dedupe (data : list loc) : M (list loc) :=
  let* h := get_heap in
  let '(dedupedData, increments) := dedup_filter h ∅ data in
  let* _ := modify_stats (fun s => set_duplicatesRemoved (duplicatesRemoved s + increments) s) in
  let* _ := modify_stats (set_duplicatesRemoved (length data - length dedupedData)) in
  ret dedupedData.

(** ** Step 3: missing values (lines 158-224) *)

Definition Qltb (a b : Q) : bool := negb (Qle_bool b a).

(** [.filter(v => !isNaN(v))] on parsed numbers. *)
Definition fin_values (ns : list num) : list Q :=
  flat_map (fun n => match n with Fin q => [q] | NaN => [] end) ns.

(** [vals.reduce((acc, val) => { acc[val] = (acc[val] || 0) + 1; ... }, {})],
    [key] being the conversion of a value to a property key. *)
Definition count_values {A} (key : A -> string) (vals : list A) : obj nat :=
  fold_left (fun acc v =>
               let k := key v in
               set_prop acc k (S (match prop acc k with Some n => n | None => O end)))
            vals [].

(** [Object.entries(counts).sort((a, b) => b[1] - a[1])[0][0]]: indexing
    the first entry of an empty array throws. *)
Definition most_frequent (counts : obj nat) : js_error + string :=
  match sort_by (fun a b => (snd b <? snd a)%nat) (entries counts) with
  | (k, _) :: _ => inr k
  | [] => inl TypeError
  end.

Definition replacement_value (opts : options) (values : list cell) : js_error + cell :=
  match missingValueStrategy opts with
  | Constant =>
      (* options.constantValue || "" *)
      inr (CStr (match constantValue opts with
                 | Some c => if String.eqb c "" then "" else c
                 | None => ""
                 end))
  | strat =>
      let numericValues := fin_values (map js_parseFloat values) in
      match numericValues with
      | _ :: _ =>
          match strat with
          | Mean =>
              inr (CNum (Fin (Qred (fold_left Qplus numericValues 0%Q
                                    / inject_Z (Z.of_nat (length numericValues)))%Q)))
          | Median =>
              let sorted := sort_by Qltb numericValues in
              let mid := (length sorted / 2)%nat in
              inr (CNum (Fin (if Nat.even (length sorted)
                              then Qred ((nth (mid - 1) sorted 0 + nth mid sorted 0) / 2)%Q
                              else nth mid sorted 0%Q)))
          | Mode =>
              match most_frequent (count_values (fun v => num_to_string (Fin v)) numericValues) with
              | inl e => inl e
              | inr k => inr (CStr k)
              end
          | Constant => inr CUndef
          end
      | [] =>
          match most_frequent (count_values to_js_string values) with
          | inl e => inl e
          | inr k => inr (CStr k)
          end
      end
  end.

(** The callback of [data.map] at lines 216-222. *)
Definition fill_missing (col : string) (replacementValue : cell) (l : loc) : M loc :=
  let* row := read l in
  if is_missing (get row col) then
    let* _ := modify_stats (fun s => set_nullValuesFixed (S (nullValuesFixed s)) s) in
    alloc (set_prop (spread row) col replacementValue)
  else ret l.

Definition impute_column (opts : options) (data : list loc) (col : string) : M (list loc) :=
  let* h := get_heap in
  let values := List.filter (fun v => negb (is_missing v)) (map (fun l => get (deref h l) col) data) in
  let missingCount := length (List.filter (fun l => is_missing (get (deref h l) col)) data) in
  if (missingCount =? 0)%nat then ret data
  else
    let* replacementValue := lift (replacement_value opts values) in
    mapM (fill_missing col replacementValue) data.

Definition is_constant (s : strategy) : bool :=
  match s with Constant => true | _ => false end.

Definition impute (opts : options) (data : list loc) : M (list loc) :=
  if negb (is_constant (missingValueStrategy opts)) || (match constantValue opts with Some _ => true | None => false end) then
    let* h := get_heap in
    match data with
    | [] => throw TypeError
    | l0 :: _ => foldM (impute_column opts) data (own_keys (deref h l0))
    end
  else ret data.

(** ** Step 4: outliers (lines 226-266) *)

(** Bounds [Q1 - 1.5 IQR] and [Q3 + 1.5 IQR] of a non-empty sample. *)
Definition iqr_bounds (numericValues : list Q) : Q * Q :=
  let sorted := sort_by Qltb numericValues in
  let n := inject_Z (Z.of_nat (length sorted)) in
  let q1Idx := Z.to_nat (Qfloor (n * (1 # 4))%Q) in
  let q3Idx := Z.to_nat (Qfloor (n * (3 # 4))%Q) in
  let q1 := nth q1Idx sorted 0%Q in
  let q3 := nth q3Idx sorted 0%Q in
  let iqr := (q3 - q1)%Q in
  ((q1 - (3 # 2) * iqr)%Q, (q3 + (3 # 2) * iqr)%Q).

(** [data.filter] dropping the rows whose value lies outside the bounds;
    the number is the count of [stats.outlierCount++]. *)
Fixpoint outlier_filter (h : heap) (col : string) (lowerBound upperBound : Q)
         (data : list loc) : list loc * nat :=
  match data with
  | [] => ([], O)
  | l :: t =>
      let '(kept, n) := outlier_filter h col lowerBound upperBound t in
      match js_parseFloat (get (deref h l) col) with
      | NaN => (l :: kept, n)
      | Fin v =>
          if Qltb v lowerBound || Qltb upperBound v then (kept, S n) else (l :: kept, n)
      end
  end.

Definition remove_outliers_column (data : list loc) (col : string) : M (list loc) :=
  let* h := get_heap in
  let numericValues := fin_values (map (fun l => js_parseFloat (get (deref h l) col)) data) in
  match numericValues with
  | [] => ret data
  | _ :: _ =>
      let '(lowerBound, upperBound) := iqr_bounds numericValues in
      let '(filteredData, removed) := outlier_filter h col lowerBound upperBound data in
      let* _ := modify_stats (fun s => set_outlierCount (outlierCount s + removed) s) in
      ret (if (length filteredData <? length data)%nat then filteredData else data)
  end.

Definition remove_outliers (opts : options) (data : list loc) : M (list loc) :=
  if removeOutliers opts then
    let* h := get_heap in
    match data with
    | [] => throw TypeError
    | l0 :: _ => foldM remove_outliers_column data (own_keys (deref h l0))
    end
  else ret data.

(** ** Step 5: type coercion (lines 268-298) *)

(** [stats.columnsRenamed.find(c => c.cleaned === col)] *)
Definition find_column (es : list rename_entry) (col : string) : option rename_entry :=
  List.find (fun c => String.eqb (cleaned c) col) es.

Definition coerce_cell (newRow : loc) (l : loc) (col : string) : M unit :=
  let* st := get_stats in
  match find_column (columnsRenamed st) col with
  | None => ret tt
  | Some columnInfo =>
      let* row := read l in
      let value := get row col in
      if is_missing value then ret tt
      else if String.eqb (type columnInfo) "integer" then
        write newRow col (CNum (js_parseInt value))
      else if String.eqb (type columnInfo) "float" then
        write newRow col (CNum (js_parseFloat value))
      else if String.eqb (type columnInfo) "date" then
        match date_to_iso value with
        | Some d => write newRow col (CStr d)
        | None => ret tt   (* Keep as is if date conversion fails *)
        end
      else ret tt
  end.

Definition fix_types (opts : options) (data : list loc) : M (list loc) :=
  if fixDataTypes opts then
    let* h := get_heap in
    match data with
    | [] => throw TypeError
    | l0 :: _ =>
        let columns := own_keys (deref h l0) in
        mapM (fun l =>
                let* row := read l in
                let* newRow := alloc (spread row) in
                let* _ := forEach (coerce_cell newRow l) columns in
                ret newRow)
             data
    end
  else ret data.

(** ** The whole of [cleanData] *)

Definition initial_stats (h : heap) (rawData : list loc) : stats :=
  mkStats (length rawData)
          (length (own_keys (deref h (List.hd O rawData))))
          O O [] [] O.

Definition pipeline (opts : options) (rawData : list loc) : M (list loc) :=
  let* data := (if standardizeColumnNames opts then standardize rawData else ret rawData) in
  let* data := dedupe data in
  let* data := impute opts data in
  let* data := remove_outliers opts data in
  fix_types opts data.

(** [cleanData(rawData, options)] on a heap holding the raw rows: the
    cleaned rows, the statistics and the final heap. *)
Definition cleanData (h : heap) (rawData : list loc) (opts : options)
  : js_error + ((list loc * stats) * heap) :=
  match rawData with
  | [] => inl InvalidDataFormat
  | _ :: _ =>
      match pipeline opts rawData (mkState h (initial_stats h rawData)) with
      | inl e => inl e
      | inr (data, s) => inr ((data, st_stats s), st_heap s)
      end
  end.

(** [cleanData] on freshly read rows, with the cleaned rows read back. *)
Definition run_clean (rows : list row) (opts : options) : js_error + (list row * stats) :=
  match cleanData rows (seq 0 (length rows)) opts with
  | inl e => inl e
  | inr ((data, st), h') => inr (map (deref h') data, st)
  end.

Definition default_options : options := mkOptions false true true Mean None.

(** ** Upload file filter (lines 18-50) *)

(** [String.prototype.toLowerCase] *)
Definition js_toLowerCase (s : string) : string :=
  string_of_list_ascii (map to_lower (list_ascii_of_string s)).

(** [s.slice(start, end)] for [0 <= start <= end <= s.length]. *)
Definition js_slice (s : string) (start end_ : nat) : string :=
  string_of_list_ascii (firstn (end_ - start) (skipn start (list_ascii_of_string s))).

(** [s.substring(1)] *)
Definition js_substring1 (s : string) : string :=
  match s with
  | EmptyString => EmptyString
  | String _ t => t
  end.

(** Loop variables of Node's [path.posix.extname]. *)
Record ext_state := mkExt {
  startDot : Z; startPart : Z; end_ : Z; matchedSlash : bool; preDotState : Z
}.

Definition ext_init : ext_state := mkExt (-1) 0 (-1) true 0.

(** [for (let i = path.length - 1; i >= 0; --i) { ... }]: [k] characters
    are left to scan, the next one at index [k - 1]. *)
Fixpoint extname_loop (path : list ascii) (k : nat) (st : ext_state) : ext_state :=
  match k with
  | O => st
  | S i =>
      let code := nth i path " "%char in
      if Ascii.eqb code "/"%char then
        if negb (matchedSlash st) then
          mkExt (startDot st) (Z.of_nat i + 1) (end_ st) (matchedSlash st) (preDotState st)
        else extname_loop path i st
      else
        let st1 :=
          if (end_ st =? -1)%Z then
            mkExt (startDot st) (startPart st) (Z.of_nat i + 1) false (preDotState st)
          else st in
        let st2 :=
          if Ascii.eqb code "."%char then
            if (startDot st1 =? -1)%Z then
              mkExt (Z.of_nat i) (startPart st1) (end_ st1) (matchedSlash st1) (preDotState st1)
            else if negb (preDotState st1 =? 1)%Z then
              mkExt (startDot st1) (startPart st1) (end_ st1) (matchedSlash st1) 1
            else st1
          else if negb (startDot st1 =? -1)%Z then
            mkExt (startDot st1) (startPart st1) (end_ st1) (matchedSlash st1) (-1)
          else st1 in
        extname_loop path i st2
  end.

(** [path.extname(p)] (POSIX). *)
Definition extname (p : string) : string :=
  let cs := list_ascii_of_string p in
  let st := extname_loop cs (List.length cs) ext_init in
  if (startDot st =? -1)%Z || (end_ st =? -1)%Z || (preDotState st =? 0)%Z ||
     ((preDotState st =? 1)%Z && (startDot st =? end_ st - 1)%Z &&
      (startDot st =? startPart st + 1)%Z)
  then ""
  else js_slice p (Z.to_nat (startDot st)) (Z.to_nat (end_ st)).

Inductive filter_result :=
| Accept                   (** [cb(null, true)] *)
| Reject (message : string). (** [cb(new Error(message))] *)

(** The [fileFilter] of the upload middleware. *)
Definition file_filter (originalname : string) : filter_result :=
  let allowedExtensions := [".csv"; ".xls"; ".xlsx"] in
  let ext := js_toLowerCase (extname originalname) in
  if existsb (String.eqb ext) allowedExtensions then Accept
  else Reject "Only .csv, .xls, and .xlsx files are allowed".

(** [fileType] of the upload route (line 321). *)
Definition upload_file_type (originalname : string) : string :=
  js_substring1 (js_toLowerCase (extname originalname)).

(** ** Request handlers *)

(** [req.body] after [express.json()]: a JSON object, or any other JSON
    value (an array, a string, ...). *)
Inductive body :=
| BObj (fields : row)
| BOther.

(** [z.boolean().default(d)] *)
Definition parse_bool_default (d : bool) (v : cell) : option bool :=
  match v with
  | CUndef => Some d
  | CBool b => Some b
  | _ => None
  end.

(** [z.enum(["mean", "median", "mode", "constant"]).default("mean")] *)
Definition parse_strategy (v : cell) : option strategy :=
  match v with
  | CUndef => Some Mean
  | CStr s =>
      if String.eqb s "mean" then Some Mean
      else if String.eqb s "median" then Some Median
      else if String.eqb s "mode" then Some Mode
      else if String.eqb s "constant" then Some Constant
      else None
  | _ => None
  end.

(** [z.string().optional()] *)
Definition parse_opt_string (v : cell) : option (option string) :=
  match v with
  | CUndef => Some None
  | CStr s => Some (Some s)
  | _ => None
  end.

(** [processingOptionsSchema.parse(req.body)]: [None] is a thrown
    [ZodError]; keys outside the schema are dropped. *)
Definition parse_options (b : body) : option options :=
  match b with
  | BOther => None
  | BObj r =>
      match parse_bool_default false (get r "removeOutliers"),
            parse_bool_default true (get r "fixDataTypes"),
            parse_bool_default true (get r "standardizeColumnNames"),
            parse_strategy (get r "missingValueStrategy"),
            parse_opt_string (get r "constantValue") with
      | Some ro, Some fx, Some sc, Some ms, Some cv => Some (mkOptions ro fx sc ms cv)
      | _, _, _, _, _ => None
      end
  end.

Definition strategy_name (s : strategy) : string :=
  match s with Mean => "mean" | Median => "median" | Mode => "mode" | Constant => "constant" end.

(** [JSON.parse(JSON.stringify(options))] for an options value: the
    fields in declaration order, [constantValue] left out when undefined. *)
Definition options_json (o : options) : row :=
  [("removeOutliers", CBool (removeOutliers o));
   ("fixDataTypes", CBool (fixDataTypes o));
   ("standardizeColumnNames", CBool (standardizeColumnNames o));
   ("missingValueStrategy", CStr (strategy_name (missingValueStrategy o)))]
  ++ match constantValue o with Some c => [("constantValue", CStr c)] | None => [] end.

(** The JSON body of [POST /api/upload] without the storage fields:
    [preview], [columns] and [totalRows] ([rawData] is an array). *)
Definition upload_summary (rawData : list row) : list row * list string * nat :=
  (firstn 5 rawData,
   (match rawData with [] => [] | r :: _ => own_keys r end),
   List.length rawData).

Inductive process_response :=
| ProcessError (status : nat) (message : string)
| Processed (id : num) (st : stats) (preview : list row).

(** [POST /api/process/:id]. [getDataset] is [storage.getDataset],
    giving the stored [rawData]; the second component is the update
    passed to [storage.updateDataset] (the id, [cleanedData] and
    [cleaningStats]), if any. *)
Definition process_route (getDataset : num -> option (list row)) (id : string) (b : body)
  : process_response * option (num * (list row * stats)) :=
  let datasetId := parse_int_string id in
  match parse_options b with
  | None => (ProcessError 400 "Invalid options", None)
  | Some options =>
      match getDataset datasetId with
      | None => (ProcessError 404 "Dataset not found", None)
      | Some rawData =>
          match run_clean rawData options with
          | inl _ => (ProcessError 500 "Failed to process dataset", None)
          | inr (cleanedData, st) =>
              (Processed datasetId st (firstn 5 cleanedData),
               Some (datasetId, (cleanedData, st)))
          end
      end
  end.

(** [s.split(sep)] for a one-character separator. *)
Fixpoint split_chars (sep : ascii) (cs : list ascii) : list (list ascii) :=
  match cs with
  | [] => [[]]
  | c :: t =>
      if Ascii.eqb c sep then [] :: split_chars sep t
      else match split_chars sep t with
           | [] => [[c]]
           | w :: ws => (c :: w) :: ws
           end
  end.

Definition js_split (s : string) (sep : ascii) : list string :=
  map string_of_list_ascii (split_chars sep (list_ascii_of_string s)).

(** The fields of a stored dataset the download route reads. *)
Record stored := mkStored {
  originalFileName : string;
  isProcessed : bool;
  cleanedData : option (list row)
}.

Inductive download_response :=
| DownloadError (status : nat) (message : string)
| Attachment (content_type : string) (filename : string) (rows : list row).

Definition xlsx_mime : string :=
  "application/vnd.openxmlformats-officedocument.spreadsheetml.sheet".

(** [GET /api/datasets/:id/download/:format]; the attachment carries the
    rows given to [Papa.unparse] or [XLSX.utils.json_to_sheet]. *)
Definition download_route (getDataset : num -> option stored) (id format : string)
  : download_response :=
  let datasetId := parse_int_string id in
  if negb (existsb (String.eqb format) ["csv"; "xlsx"]) then
    DownloadError 400 "Invalid format. Use 'csv' or 'xlsx'"
  else
    match getDataset datasetId with
    | None => DownloadError 404 "Dataset not found"
    | Some dataset =>
        match isProcessed dataset, cleanedData dataset with
        | true, Some rows =>
            let base := match js_split (originalFileName dataset) "." with
                        | w :: _ => w | [] => "undefined" end in
            let filename := base ++ "_cleaned." ++ format in
            if String.eqb format "csv" then Attachment "text/csv" filename rows
            else Attachment xlsx_mime filename rows
        | _, _ => DownloadError 400 "Dataset has not been processed yet"
        end
    end.

(** ** Predicates used in the proofs *)

(** Characters a cleaned column name is made of: [a-z], [0-9] and [_]. *)
Definition is_clean_char (c : ascii) : bool :=
  is_lower c || is_digit c || (code c =? 95)%nat.

(** The statistics fields only the standardization stage writes. *)
Definition cols_of (s : stats) : nat * nat * list rename_entry * obj nat :=
  (totalRows s, totalColumns s, columnsRenamed s, dataTypeSummary s).

Definition keeps_cols {A} (m : M A) : Prop :=
  forall s a s', m s = inr (a, s') -> cols_of (st_stats s') = cols_of (st_stats s).

Definition inferred_types : list string := ["float"; "integer"; "date"; "string"].

(** Number of [columnsRenamed] entries of type [t]. *)
Definition type_count (t : string) (es : list rename_entry) : nat :=
  List.length (List.filter (fun e => String.eqb (type e) t) es).

(** [dataTypeSummary] tallies the types of [columnsRenamed]. *)
Definition summary_ok (st : stats) : Prop :=
  forall t, prop (dataTypeSummary st) t =
            (if (type_count t (columnsRenamed st) =? 0)%nat then None
             else Some (type_count t (columnsRenamed st))).

Definition entry_ok (e : rename_entry) : Prop :=
  cleaned e = clean_column_name (original e) /\ In (type e) inferred_types.

(** No character of [l] is [c]. *)
Definition no_char (c : ascii) (l : list ascii) : Prop := Forall (fun x => x <> c) l.

(** * Proofs *)

(** ** Running the monad *)

Lemma bind_inr {A B} (m : M A) (k : A -> M B) s b s'' :
  bind m k s = inr (b, s'') ->
  exists a s', m s = inr (a, s') /\ k a s' = inr (b, s'').
Proof.
  unfold bind. destruct (m s) as [e|[a s']]; [discriminate|]. eauto.
Qed.

Lemma bind_inl {A B} (m : M A) (k : A -> M B) s e :
  bind m k s = inl e ->
  m s = inl e \/ exists a s', m s = inr (a, s') /\ k a s' = inl e.
Proof.
  unfold bind. destruct (m s) as [e'|[a s']]; intros H; [inversion H; auto|eauto].
Qed.

Ltac inv_bind H :=
  let a := fresh "a" in let s := fresh "s" in
  let H1 := fresh "Hm" in let H2 := fresh "Hk" in
  apply bind_inr in H; destruct H as (a & s & H1 & H2).

(** ** Frame: locations below [n] are never changed *)

Definition frame {A} (n : nat) (m : M A) : Prop :=
  forall s a s', m s = inr (a, s') -> (n <= length (st_heap s))%nat ->
    (length (st_heap s) <= length (st_heap s'))%nat /\
    forall l, (l < n)%nat -> st_heap s' !! l = st_heap s !! l.

Lemma frame_ret {A} n (a : A) : frame n (ret a).
Proof. intros s b s' H _. inversion H; subst. split; auto. Qed.

Lemma frame_throw {A} n e : frame n (@throw A e).
Proof. intros s b s' H. discriminate. Qed.

Lemma frame_lift {A} n (r : js_error + A) : frame n (lift r).
Proof. intros s b s' H _. destruct r; inversion H; subst. split; auto. Qed.

Lemma frame_get_heap n : frame n get_heap.
Proof. intros s b s' H _. inversion H; subst. split; auto. Qed.

Lemma frame_get_stats n : frame n get_stats.
Proof. intros s b s' H _. inversion H; subst. split; auto. Qed.

Lemma frame_modify_stats n f : frame n (modify_stats f).
Proof. intros s b s' H _. inversion H; subst. split; simpl; auto. Qed.

Lemma frame_read n l : frame n (read l).
Proof. intros s b s' H _. inversion H; subst. split; auto. Qed.

Lemma frame_write n l k v : (n <= l)%nat -> frame n (write l k v).
Proof.
  intros Hl s b s' H _. inversion H; subst; cbn [st_heap]. split.
  - rewrite length_insert. lia.
  - intros l' Hl'. apply list_lookup_insert_ne. lia.
Qed.

Lemma frame_bind {A B} n (m : M A) (k : A -> M B) :
  frame n m -> (forall a, frame n (k a)) -> frame n (bind m k).
Proof.
  intros Hm Hk s b s'' H Hn. inv_bind H.
  destruct (Hm _ _ _ Hm0 Hn) as [L1 E1].
  destruct (Hk _ _ _ _ Hk0 ltac:(lia)) as [L2 E2].
  split; [lia|]. intros l Hl. rewrite E2, E1; auto.
Qed.

(** A fresh object lies above every location that existed before. *)
Lemma frame_alloc_bind {B} n r (k : loc -> M B) :
  (forall l, (n <= l)%nat -> frame n (k l)) -> frame n (bind (alloc r) k).
Proof.
  intros Hk s b s'' H Hn. inv_bind H. inversion Hm; subst.
  destruct (Hk _ Hn _ _ _ Hk0) as [L2 E2]; cbn [st_heap] in *.
  { rewrite length_app; simpl; lia. }
  rewrite length_app in L2. split; [simpl in L2; lia|].
  intros l Hl. rewrite E2 by auto. apply lookup_app_l. lia.
Qed.

Lemma frame_alloc n r : frame n (alloc r).
Proof.
  intros s b s' H Hn. inversion H; subst; cbn [st_heap].
  rewrite length_app. split; [simpl; lia|]. intros l Hl. apply lookup_app_l. lia.
Qed.

Lemma frame_mapM {A B} n (f : A -> M B) (l : list A) :
  (forall x, frame n (f x)) -> frame n (mapM f l).
Proof.
  intros Hf. induction l as [|x t IH]; simpl.
  - apply frame_ret.
  - apply frame_bind; [auto|]. intros y. apply frame_bind; [auto|].
    intros ys. apply frame_ret.
Qed.

Lemma frame_foldM {A B} n (f : B -> A -> M B) (l : list A) :
  (forall acc x, frame n (f acc x)) -> forall acc, frame n (foldM f acc l).
Proof.
  intros Hf. induction l as [|x t IH]; intros acc; simpl.
  - apply frame_ret.
  - apply frame_bind; auto.
Qed.

Lemma frame_forEach {A} n (f : A -> M unit) (l : list A) :
  (forall x, frame n (f x)) -> frame n (forEach f l).
Proof.
  intros Hf. induction l as [|x t IH]; simpl.
  - apply frame_ret.
  - apply frame_bind; auto.
Qed.

Ltac solve_frame :=
  repeat match goal with
  | |- forall _, _ => intro
  | |- frame _ (bind (alloc _) _) => apply frame_alloc_bind
  | |- frame _ (bind _ _) => apply frame_bind
  | |- frame _ (ret _) => apply frame_ret
  | |- frame _ (alloc _) => apply frame_alloc
  | |- frame _ (throw _) => apply frame_throw
  | |- frame _ (lift _) => apply frame_lift
  | |- frame _ get_heap => apply frame_get_heap
  | |- frame _ get_stats => apply frame_get_stats
  | |- frame _ (modify_stats _) => apply frame_modify_stats
  | |- frame _ (read _) => apply frame_read
  | |- frame _ (write _ _ _) => apply frame_write; lia
  | |- frame _ (mapM _ _) => apply frame_mapM
  | |- frame _ (foldM _ _ _) => apply frame_foldM
  | |- frame _ (forEach _ _) => apply frame_forEach
  | |- frame _ (match ?x with _ => _ end) => destruct x
  | |- frame _ (if ?b then _ else _) => destruct b
  | |- _ => progress cbv beta
  end.

Lemma frame_standardize n data : frame n (standardize data).
Proof. unfold standardize. solve_frame. Qed.

Lemma frame_dedupe n data : frame n (dedupe data).
Proof. unfold dedupe. solve_frame. Qed.

Lemma frame_impute n opts data : frame n (impute opts data).
Proof. unfold impute, impute_column, fill_missing. solve_frame. Qed.

Lemma frame_remove_outliers n opts data : frame n (remove_outliers opts data).
Proof. unfold remove_outliers, remove_outliers_column. solve_frame. Qed.

Lemma frame_fix_types n opts data : frame n (fix_types opts data).
Proof. unfold fix_types, coerce_cell. solve_frame. Qed.

Lemma frame_pipeline n opts data : frame n (pipeline opts data).
Proof.
  unfold pipeline. apply frame_bind; [destruct (standardizeColumnNames opts)|intros].
  - apply frame_standardize.
  - apply frame_ret.
  - apply frame_bind; [apply frame_dedupe|intros].
    apply frame_bind; [apply frame_impute|intros].
    apply frame_bind; [apply frame_remove_outliers|intros].
    apply frame_fix_types.
Qed.

(** ** C6: the raw dataset is not mutated *)

(** C6: for every raw dataset and every options value on which [cleanData]
    returns a result, every object that existed before the run (every raw
    row among them) has the same properties afterwards: the run only
    allocates new objects and writes to objects it allocated itself. *)
Theorem cleanData_does_not_mutate_input h rawData opts cleaned st h' :
  cleanData h rawData opts = inr ((cleaned, st), h') ->
  (length h <= length h')%nat /\ (forall l, (l < length h)%nat -> h' !! l = h !! l).
Proof.
  unfold cleanData. destruct rawData as [|l0 t]; [discriminate|].
  destruct (pipeline opts (l0 :: t) _) as [e|[d s]] eqn:E; [discriminate|].
  intros H. inversion H; subst.
  exact (frame_pipeline (length h) opts (l0 :: t) _ _ _ E (le_n _)).
Qed.

Lemma cleanData_does_not_mutate_input_witness :
  let h := [[("A ", CStr "1")]] in
  let h' := [[("A ", CStr "1")]; [("a_", CStr "1")]; [("a_", CNum (Fin 1))]] in
  cleanData h [0%nat] default_options
    = inr (([2%nat], mkStats 1 1 0 0 [mkEntry "A " "a_" "integer"] [("integer", 1%nat)] 0), h')
  /\ (length h <= length h')%nat /\ (forall l, (l < length h)%nat -> h' !! l = h !! l).
Proof.
  intros h h'. split; [vm_compute; reflexivity|].
  apply (cleanData_does_not_mutate_input h [0%nat] default_options [2%nat]
           (mkStats 1 1 0 0 [mkEntry "A " "a_" "integer"] [("integer", 1%nat)] 0) h').
  vm_compute. reflexivity.
Defined.

(** ** Inverting runs of the monad *)

Ltac inv_run :=
  repeat match goal with
  | H : bind _ _ _ = inr _ |- _ => inv_bind H
  | H : ret _ _ = inr _ |- _ => cbv [ret] in H; inversion H; subst; clear H
  | H : get_heap _ = inr _ |- _ => cbv [get_heap] in H; inversion H; subst; clear H
  | H : get_stats _ = inr _ |- _ => cbv [get_stats] in H; inversion H; subst; clear H
  | H : modify_stats _ _ = inr _ |- _ => cbv [modify_stats] in H; inversion H; subst; clear H
  | H : read _ _ = inr _ |- _ => cbv [read] in H; inversion H; subst; clear H
  | H : throw _ _ = inr _ |- _ => discriminate H
  end.

(** ** Row counts *)

Lemma mapM_length {A B} (f : A -> M B) (l : list A) s l' s' :
  mapM f l s = inr (l', s') -> length l' = length l.
Proof.
  revert s l' s'. induction l as [|x t IH]; simpl; intros s l' s' H; inv_run; simpl; auto.
  f_equal. eauto.
Qed.

Lemma foldM_shrinks {A} (f : list loc -> A -> M (list loc)) (xs : list A) :
  (forall acc x s d s', f acc x s = inr (d, s') -> (length d <= length acc)%nat) ->
  forall acc s d s', foldM f acc xs s = inr (d, s') -> (length d <= length acc)%nat.
Proof.
  intros Hf. induction xs as [|x t IH]; simpl; intros acc s d s' H; inv_run; auto.
  specialize (Hf _ _ _ _ _ Hm). specialize (IH _ _ _ _ Hk). lia.
Qed.

Lemma standardize_length data s d s' :
  standardize data s = inr (d, s') -> length d = length data.
Proof.
  unfold standardize. intros H; inv_run. destruct data; [discriminate|].
  inv_run. eapply mapM_length; eauto.
Qed.

Lemma dedup_filter_length h u data :
  (length (fst (dedup_filter h u data)) <= length data)%nat.
Proof.
  revert u. induction data as [|l t IH]; intros u; simpl; [lia|].
  destruct (decide _).
  - specialize (IH u). destruct (dedup_filter h u t); simpl in *; lia.
  - specialize (IH ({[json_stringify (deref h l)]} ∪ u)).
    destruct (dedup_filter h _ t); simpl in *; lia.
Qed.

Lemma dedupe_length data s d s' :
  dedupe data s = inr (d, s') -> (length d <= length data)%nat.
Proof.
  unfold dedupe. intros H; inv_run.
  match goal with
  | H : context [dedup_filter ?h ∅ data] |- _ =>
      pose proof (dedup_filter_length h ∅ data); destruct (dedup_filter h ∅ data)
  end.
  inv_run. auto.
Qed.

Lemma impute_length opts data s d s' :
  impute opts data s = inr (d, s') -> (length d <= length data)%nat.
Proof.
  unfold impute. destruct (_ || _); intros H; inv_run; [|lia].
  destruct data as [|l0 t]; [discriminate|].
  eapply foldM_shrinks; [|eassumption].
  intros acc x st0 d0 st0' Hc. unfold impute_column in Hc. inv_run.
  destruct (_ =? _)%nat; inv_run; [lia|].
  destruct (replacement_value _ _); [discriminate|]. inv_run.
  cbv [lift] in Hm. inversion Hm; subst.
  erewrite mapM_length by eauto. lia.
Qed.

Lemma outlier_filter_length h col lo hi data :
  (length (fst (outlier_filter h col lo hi data)) <= length data)%nat.
Proof.
  induction data as [|l t IH]; simpl; [lia|].
  destruct (outlier_filter h col lo hi t) as [kept n]. simpl in *.
  destruct (js_parseFloat _); simpl; [lia|]. destruct (_ || _); simpl; lia.
Qed.

Lemma remove_outliers_length opts data s d s' :
  remove_outliers opts data s = inr (d, s') -> (length d <= length data)%nat.
Proof.
  unfold remove_outliers. destruct (removeOutliers opts); intros H; inv_run; [|lia].
  destruct data as [|l0 t]; [discriminate|].
  eapply foldM_shrinks; [|eassumption].
  intros acc x st0 d0 st0' Hc. unfold remove_outliers_column in Hc. inv_run.
  destruct (fin_values _); inv_run; [lia|].
  destruct (iqr_bounds _) as [lo hi].
  match goal with
  | H : context [outlier_filter ?h x lo hi acc] |- _ =>
      pose proof (outlier_filter_length h x lo hi acc); destruct (outlier_filter h x lo hi acc)
  end.
  inv_run.
  destruct (_ <? _)%nat; simpl in *; lia.
Qed.

Lemma fix_types_length opts data s d s' :
  fix_types opts data s = inr (d, s') -> length d = length data.
Proof.
  unfold fix_types. destruct (fixDataTypes opts); intros H; inv_run; auto.
  destruct data; [discriminate|]. eapply mapM_length; eauto.
Qed.

Lemma pipeline_length opts data s d s' :
  pipeline opts data s = inr (d, s') -> (length d <= length data)%nat.
Proof.
  unfold pipeline. intros H. inv_bind H.
  assert (L1 : (length a <= length data)%nat).
  { destruct (standardizeColumnNames opts).
    - erewrite standardize_length by eauto. lia.
    - inv_run. lia. }
  inv_run.
  apply dedupe_length in Hm0. apply impute_length in Hm1.
  apply remove_outliers_length in Hm2. apply fix_types_length in Hk0. lia.
Qed.

(** C7: whenever [cleanData] returns a result, the cleaned dataset has at
    most as many rows as the raw dataset. *)
Theorem cleanData_row_count h rawData opts cleaned st h' :
  cleanData h rawData opts = inr ((cleaned, st), h') ->
  (length cleaned <= length rawData)%nat.
Proof.
  unfold cleanData. destruct rawData as [|l0 t]; [discriminate|].
  destruct (pipeline opts (l0 :: t) _) as [e|[d s]] eqn:E; [discriminate|].
  intros H. inversion H; subst. eapply pipeline_length; eauto.
Qed.

Lemma cleanData_row_count_witness :
  let h := [[("A ", CStr "1")]] in
  let h' := [[("A ", CStr "1")]; [("a_", CStr "1")]; [("a_", CNum (Fin 1))]] in
  cleanData h [0%nat] default_options
    = inr (([2%nat], mkStats 1 1 0 0 [mkEntry "A " "a_" "integer"] [("integer", 1%nat)] 0), h')
  /\ (length [2%nat] <= length [0%nat])%nat.
Proof.
  intros h h'. split; [vm_compute; reflexivity|].
  apply (cleanData_row_count h [0%nat] default_options [2%nat]
           (mkStats 1 1 0 0 [mkEntry "A " "a_" "integer"] [("integer", 1%nat)] 0) h').
  vm_compute. reflexivity.
Defined.

(** ** Errors: only the emptiness guard raises "Invalid data format" *)

Definition only_type_errors {A} (m : M A) : Prop :=
  forall s e, m s = inl e -> e = TypeError.

Lemma ote_ret {A} (a : A) : only_type_errors (ret a).
Proof. intros s e H. discriminate. Qed.

Lemma ote_throw {A} : only_type_errors (@throw A TypeError).
Proof. intros s e H. inversion H. reflexivity. Qed.

Lemma ote_lift {A} (r : js_error + A) :
  (forall e, r = inl e -> e = TypeError) -> only_type_errors (lift r).
Proof. intros Hr s e H. destruct r; inversion H; subst; auto. Qed.

Lemma ote_prim :
  only_type_errors get_heap /\ only_type_errors get_stats /\
  (forall f, only_type_errors (modify_stats f)) /\ (forall l, only_type_errors (read l)) /\
  (forall r, only_type_errors (alloc r)) /\ (forall l k v, only_type_errors (write l k v)).
Proof. repeat split; intros; intros s e H; discriminate. Qed.

Lemma ote_bind {A B} (m : M A) (k : A -> M B) :
  only_type_errors m -> (forall a, only_type_errors (k a)) -> only_type_errors (bind m k).
Proof.
  intros Hm Hk s e H. apply bind_inl in H as [H|(a & s' & _ & H)].
  - exact (Hm _ _ H).
  - exact (Hk _ _ _ H).
Qed.

Lemma ote_mapM {A B} (f : A -> M B) (l : list A) :
  (forall x, only_type_errors (f x)) -> only_type_errors (mapM f l).
Proof.
  intros Hf. induction l; simpl.
  - apply ote_ret.
  - apply ote_bind; auto. intros. apply ote_bind; auto. intros. apply ote_ret.
Qed.

Lemma ote_foldM {A B} (f : B -> A -> M B) (l : list A) :
  (forall acc x, only_type_errors (f acc x)) -> forall acc, only_type_errors (foldM f acc l).
Proof.
  intros Hf. induction l; simpl; intros acc.
  - apply ote_ret.
  - apply ote_bind; auto.
Qed.

Lemma ote_forEach {A} (f : A -> M unit) (l : list A) :
  (forall x, only_type_errors (f x)) -> only_type_errors (forEach f l).
Proof.
  intros Hf. induction l; simpl.
  - apply ote_ret.
  - apply ote_bind; auto.
Qed.

Lemma js_some_errors {A} (f : A -> js_error + bool) (l : list A) e :
  (forall x e', f x = inl e' -> e' = TypeError) -> js_some f l = inl e -> e = TypeError.
Proof.
  intros Hf. induction l as [|x t IH]; simpl; [discriminate|].
  destruct (f x) as [e'|[|]] eqn:E; intros H; try discriminate; auto.
  inversion H; subst. eauto.
Qed.

Lemma infer_type_errors samples e : infer_type samples = inl e -> e = TypeError.
Proof.
  unfold infer_type. destruct (forallb _ _).
  - destruct (js_some _ _) eqn:E; intros H; inversion H; subst.
    eapply js_some_errors; [|exact E].
    intros x e' Hx. cbv beta in Hx. destruct (truthy x); [|discriminate Hx].
    destruct x; inversion Hx; auto.
  - destruct (forallb _ _); discriminate.
Qed.

Lemma most_frequent_errors counts e : most_frequent counts = inl e -> e = TypeError.
Proof. unfold most_frequent. destruct (sort_by _ _) as [|[]]; intros H; inversion H; auto. Qed.

Lemma replacement_value_errors opts values e :
  replacement_value opts values = inl e -> e = TypeError.
Proof.
  unfold replacement_value.
  destruct (missingValueStrategy opts); try discriminate;
    destruct (fin_values _); try discriminate;
    try (destruct (most_frequent _) eqn:E; intros H; inversion H; subst;
         eapply most_frequent_errors; eauto).
Qed.

Ltac solve_ote :=
  repeat match goal with
  | |- forall _, _ => intro
  | |- only_type_errors (bind _ _) => apply ote_bind
  | |- only_type_errors (ret _) => apply ote_ret
  | |- only_type_errors (throw TypeError) => apply ote_throw
  | |- only_type_errors (lift (infer_type _)) => apply ote_lift, infer_type_errors
  | |- only_type_errors (lift (replacement_value _ _)) => apply ote_lift, replacement_value_errors
  | |- only_type_errors get_heap => apply ote_prim
  | |- only_type_errors get_stats => apply ote_prim
  | |- only_type_errors (modify_stats _) => apply ote_prim
  | |- only_type_errors (read _) => apply ote_prim
  | |- only_type_errors (alloc _) => apply ote_prim
  | |- only_type_errors (write _ _ _) => apply ote_prim
  | |- only_type_errors (mapM _ _) => apply ote_mapM
  | |- only_type_errors (foldM _ _ _) => apply ote_foldM
  | |- only_type_errors (forEach _ _) => apply ote_forEach
  | |- only_type_errors (match ?x with _ => _ end) => destruct x
  | |- only_type_errors (if ?b then _ else _) => destruct b
  | |- _ => progress cbv beta
  end.

Lemma pipeline_only_type_errors opts data : only_type_errors (pipeline opts data).
Proof.
  unfold pipeline, standardize, dedupe, impute, impute_column, fill_missing,
    remove_outliers, remove_outliers_column, fix_types, coerce_cell.
  solve_ote.
Qed.

(** Spec-side reading of "a uniform row collection": every row has the
    column names of the first one. *)
Definition spec_uniform (rows : list row) : bool :=
  match rows with
  | [] => true
  | r0 :: t => forallb (fun r => bool_decide (own_keys r = own_keys r0)) t
  end.

(** C4 (amended): [cleanData] raises the "Invalid data format" error, and
    produces no output, exactly when the raw dataset is empty. *)
Theorem cleanData_invalid_iff_empty h rawData opts :
  cleanData h rawData opts = inl InvalidDataFormat <-> rawData = [].
Proof.
  unfold cleanData. destruct rawData as [|l0 t]; split; intros H; auto; try discriminate.
  destruct (pipeline opts (l0 :: t) _) as [e|[d s]] eqn:E; [|discriminate].
  inversion H; subst.
  apply pipeline_only_type_errors in E. discriminate.
Qed.

(** C4 counterexample: a non-uniform dataset is not rejected; the row
    lacking the first row's column is read as [undefined] and imputed. *)
Lemma cleanData_accepts_non_uniform :
  spec_uniform [[("a", CStr "1")]; [("b", CStr "2")]] = false /\
  run_clean [[("a", CStr "1")]; [("b", CStr "2")]] default_options
  = inr ([[("a", CNum (Fin 1))]; [("a", CNum (Fin 1))]],
         mkStats 2 1 0 1 [mkEntry "a" "a" "integer"] [("integer", 1%nat)] 0).
Proof. split; vm_compute; reflexivity. Qed.

(** ** Deduplication *)

Lemma dedup_filter_fresh h u data :
  Forall (fun l => json_stringify (deref h l) ∉ u) (fst (dedup_filter h u data)) /\
  NoDup (map (fun l => json_stringify (deref h l)) (fst (dedup_filter h u data))).
Proof.
  revert u. induction data as [|l t IH]; intros u; simpl.
  - split; constructor.
  - destruct (decide _) as [Hin|Hin].
    + specialize (IH u). destruct (dedup_filter h u t); exact IH.
    + specialize (IH ({[json_stringify (deref h l)]} ∪ u)).
      destruct (dedup_filter h _ t) as [kept n]; simpl in *. destruct IH as [F N].
      split.
      * constructor; [exact Hin|]. eapply Forall_impl; [exact F|].
        intros x Hx Hu. apply Hx. apply elem_of_union_r. exact Hu.
      * constructor; [|exact N]. intros Hk.
        apply list_elem_of_fmap in Hk as (l' & Heq & Hl').
        eapply Forall_forall in F; [|exact Hl']. apply F. rewrite <- Heq.
        apply elem_of_union_l, elem_of_singleton. reflexivity.
Qed.

Lemma dedup_filter_keeps h u data :
  Forall (fun l => json_stringify (deref h l) ∉ u) data ->
  NoDup (map (fun l => json_stringify (deref h l)) data) ->
  dedup_filter h u data = (data, O).
Proof.
  revert u. induction data as [|l t IH]; intros u F N; simpl; auto.
  inversion F as [|? ? Hl Ft]; subst. inversion N as [|? ? Hn Nt]; subst.
  destruct (decide _) as [Hin|_]; [contradiction|].
  rewrite IH; auto.
  apply Forall_forall. intros l' Hl'.
  assert (json_stringify (deref h l') ≠ json_stringify (deref h l)).
  { intros Heq. apply Hn. rewrite <- Heq. apply list_elem_of_fmap. eauto. }
  eapply Forall_forall in Ft; [|exact Hl']. set_solver.
Qed.

Lemma set_duplicatesRemoved_twice n m s :
  set_duplicatesRemoved n (set_duplicatesRemoved m s) = set_duplicatesRemoved n s.
Proof. destruct s; reflexivity. Qed.

(** C8: the deduplicator is idempotent: running it on its own output keeps
    every row, in order, and records zero duplicates removed. *)
Theorem dedupe_idempotent data s d1 s1 :
  dedupe data s = inr (d1, s1) ->
  dedupe d1 s1 = inr (d1, mkState (st_heap s1) (set_duplicatesRemoved 0 (st_stats s1))).
Proof.
  unfold dedupe. intros H. inv_run.
  pose proof (dedup_filter_fresh (st_heap s0) ∅ data) as [_ N].
  destruct (dedup_filter (st_heap s0) ∅ data) as [kept n] eqn:E. simpl in N.
  inv_run. cbv [bind get_heap modify_stats ret]; simpl.
  rewrite dedup_filter_keeps; auto.
  - rewrite Nat.sub_diag, !set_duplicatesRemoved_twice. reflexivity.
  - apply Forall_forall. set_solver.
Qed.

Lemma dedupe_idempotent_witness :
  let h := [[("a", CStr "1")]; [("a", CStr "1")]; [("a", CStr "")]] in
  dedupe [0; 1; 2]%nat (mkState h (mkStats 3 1 0 0 [] [] 0))
    = inr ([0; 2]%nat, mkState h (mkStats 3 1 1 0 [] [] 0))
  /\ dedupe [0; 2]%nat (mkState h (mkStats 3 1 1 0 [] [] 0))
    = inr ([0; 2]%nat, mkState h (set_duplicatesRemoved 0 (mkStats 3 1 1 0 [] [] 0))).
Proof.
  intros h. split; [vm_compute; reflexivity|].
  apply (dedupe_idempotent [0; 1; 2]%nat (mkState h (mkStats 3 1 0 0 [] [] 0))).
  vm_compute. reflexivity.
Defined.

(** ** A column of missing cells *)

(** C9: on the one-row dataset whose only cell is missing, the mean, median
    and mode strategies reach the non-numeric fallback with no value counts
    and the run fails with a TypeError instead of returning a result. *)
Theorem cleanData_all_missing_column_throws (opts : options) (c : cell) :
  is_missing c = true ->
  missingValueStrategy opts <> Constant ->
  run_clean [[("a", c)]] opts = inl TypeError.
Proof.
  destruct opts as [ro fdt scn strat cv]; simpl; intros Hc Hs.
  destruct strat; [| | |contradiction Hs; reflexivity];
    destruct c as [| |b|n|s]; try discriminate Hc;
    try (apply String.eqb_eq in Hc; subst s);
    destruct scn; vm_compute; reflexivity.
Qed.

Lemma cleanData_all_missing_column_throws_witness :
  is_missing (CStr "") = true /\ missingValueStrategy default_options <> Constant /\
  run_clean [[("a", CStr "")]] default_options = inl TypeError.
Proof.
  split; [reflexivity|]. split; [discriminate|].
  apply (cleanData_all_missing_column_throws default_options (CStr "")).
  - reflexivity.
  - discriminate.
Defined.

(** ** Type inference on number cells *)

Definition numeric_or_missing (c : cell) : Prop :=
  is_missing c = true \/ exists q, c = CNum (Fin q).

Lemma infer_type_number_cells (vs : list cell) :
  Forall numeric_or_missing vs -> Exists (fun c => truthy c = true) vs ->
  infer_type vs = inl TypeError.
Proof.
  intros F E. unfold infer_type.
  replace (forallb _ vs) with true.
  2:{ symmetry. apply forallb_forall. intros v Hv.
      eapply List.Forall_forall in F; [|exact Hv].
      destruct F as [->|[q ->]]; reflexivity. }
  induction vs as [|v t IH]; [inversion E|].
  inversion F as [|? ? Fv Ft]; subst. simpl.
  destruct (truthy v) eqn:Tv.
  - destruct Fv as [Hm|[q ->]]; [|reflexivity].
    destruct v as [| |b|n|s]; try discriminate Hm; try discriminate Tv.
    apply String.eqb_eq in Hm. subst s. discriminate Tv.
  - apply IH; [exact Ft|]. inversion E as [? ? Hv|? ? Ht]; subst; [congruence|exact Ht].
Qed.

Lemma sample_single_column (pre : list row) (cells : list cell) :
  map (fun l => get (deref (pre ++ map (fun c => [("x", c)]) cells) l) "x")
      (seq (length pre) (length cells)) = cells.
Proof.
  revert pre. induction cells as [|c t IH]; intros pre; [reflexivity|].
  simpl. f_equal.
  - unfold deref. rewrite lookup_app_r by lia.
    rewrite Nat.sub_diag. reflexivity.
  - specialize (IH (pre ++ [[("x", c)]])%list).
    rewrite length_app, <- app_assoc in IH. simpl in IH.
    rewrite Nat.add_1_r in IH. exact IH.
Qed.

(** C10: for a dataset of one column "x" whose cells (at most 100, so all
    of them are sampled) are numbers or missing, with at least one truthy
    number among them, type inference during standardization calls
    [includes] on a number and the run fails with a TypeError. *)
Theorem cleanData_number_cells_throw (cells : list cell) (opts : options) :
  (List.length cells <= 100)%nat ->
  Forall numeric_or_missing cells ->
  Exists (fun c => truthy c = true) cells ->
  standardizeColumnNames opts = true ->
  run_clean (map (fun c => [("x", c)]) cells) opts = inl TypeError.
Proof.
  intros Hlen F E Hs.
  assert (Hv := infer_type_number_cells cells F E).
  pose proof (sample_single_column [] cells) as Hm. simpl in Hm.
  assert (Hstd : forall st, standardize (seq 0 (List.length cells))
                   (mkState (map (fun c => [("x", c)]) cells) st) = inl TypeError).
  { intros st. destruct cells as [|c0 cs]; [inversion E|].
    cbv [standardize bind get_heap]. cbn [st_heap seq length].
    replace (own_keys (deref _ 0)) with ["x"] by reflexivity.
    cbn [foldM]. cbv [bind lift get_heap]. cbn [st_heap].
    change (0 :: seq 1 (length cs))%nat with (seq 0 (length (c0 :: cs))).
    rewrite firstn_all2 by (rewrite length_seq; lia).
    rewrite Hm, Hv. reflexivity. }
  unfold run_clean, cleanData. rewrite length_map.
  destruct cells as [|c0 cs]; [inversion E|].
  cbv [pipeline]. rewrite Hs. cbv [bind]. rewrite Hstd. reflexivity.
Qed.

Lemma cleanData_number_cells_throw_witness :
  run_clean [[("x", CStr "")]; [("x", CNum (Fin 1))]] default_options = inl TypeError.
Proof.
  apply (cleanData_number_cells_throw [CStr ""; CNum (Fin 1)] default_options).
  - simpl. lia.
  - constructor; [left; reflexivity|]. constructor; [right; eexists; reflexivity|]. constructor.
  - apply Exists_cons_tl, Exists_cons_hd. reflexivity.
  - reflexivity.
Defined.

(** ** Scenario A *)

Definition scenarioA_rows : list row :=
  [[("A ", CStr "1")]; [("A ", CStr "1")]; [("A ", CStr "")]].

Definition scenarioA_options (removeOutliers fixDataTypes : bool) : options :=
  mkOptions removeOutliers fixDataTypes true Constant (Some "0").

Definition scenarioA_stats : stats :=
  mkStats 3 1 1 1 [mkEntry "A " "a_" "integer"] [("integer", 1%nat)] 0.

(** The cleaned rows of a run, if it returns. *)
Definition cleaned_rows (r : js_error + (list row * stats)) : option (list row) :=
  match r with inl _ => None | inr (rows, _) => Some rows end.

(** C3 (counterexample): with the schema defaults for the options Scenario A
    leaves unset (no outlier removal, type fixing on), the column "A " is
    renamed "a_", not "a", and the cells come out as numbers; the result is
    not the dataset [{"a":"1"},{"a":"0"}]. *)
Lemma scenarioA_not_as_stated :
  run_clean scenarioA_rows (scenarioA_options false true)
    = inr ([[("a_", CNum (Fin 1))]; [("a_", CNum (Fin 0))]], scenarioA_stats) /\
  cleaned_rows (run_clean scenarioA_rows (scenarioA_options false true))
    <> Some [[("a", CStr "1")]; [("a", CStr "0")]].
Proof.
  split; vm_compute; [reflexivity|]. intros H. inversion H.
Qed.

(** C3 (amended): on Scenario A, whatever the outlier and type-fixing
    options, the column is standardized to "a_", one duplicate row is
    removed, the empty cell is replaced by "0", and the result is
    [{"a_":"1"},{"a_":"0"}], with the cells converted to the numbers 1 and 0
    when type fixing is on. *)
Theorem scenarioA_result (removeOutliers fixDataTypes : bool) :
  run_clean scenarioA_rows (scenarioA_options removeOutliers fixDataTypes)
    = inr (if fixDataTypes
           then [[("a_", CNum (Fin 1))]; [("a_", CNum (Fin 0))]]
           else [[("a_", CStr "1")]; [("a_", CStr "0")]],
           scenarioA_stats).
Proof.
  destruct removeOutliers, fixDataTypes; vm_compute; reflexivity.
Qed.

(** ** Outlier filter *)

Lemma Qltb_true a b : Qltb a b = true <-> (a < b)%Q.
Proof.
  unfold Qltb. rewrite negb_true_iff. split; intros H.
  - apply Qnot_le_lt. intros Hle. apply Qle_bool_iff in Hle. congruence.
  - destruct (Qle_bool b a) eqn:E; [|reflexivity].
    apply Qle_bool_iff in E. exfalso. apply (Qlt_not_le _ _ H E).
Qed.

Lemma insert_by_Qltb_head y x t :
  HdRel Qle y t -> (y <= x)%Q -> HdRel Qle y (insert_by Qltb x t).
Proof.
  intros Ht Hyx. destruct t as [|z t]; simpl.
  - constructor. exact Hyx.
  - destruct (Qltb x z); constructor; [exact Hyx|]. inversion Ht. assumption.
Qed.

Lemma insert_by_Qltb_sorted x l :
  Sorted Qle l -> Sorted Qle (insert_by Qltb x l).
Proof.
  induction l as [|y t IH]; intros Hs; simpl.
  - repeat constructor.
  - inversion Hs as [|? ? Ht Hy]; subst.
    destruct (Qltb x y) eqn:E.
    + apply Qltb_true in E. constructor; [exact Hs|]. constructor. apply Qlt_le_weak, E.
    + constructor; [apply IH, Ht|]. apply insert_by_Qltb_head; [exact Hy|].
      apply Qnot_lt_le. intros Hlt. apply Qltb_true in Hlt. congruence.
Qed.

Lemma insert_by_perm {A} (lt : A -> A -> bool) x l : insert_by lt x l ≡ₚ x :: l.
Proof.
  induction l as [|y t IH]; simpl; [reflexivity|].
  destruct (lt x y); [reflexivity|]. rewrite IH. constructor.
Qed.

Lemma sort_by_perm {A} (lt : A -> A -> bool) l : sort_by lt l ≡ₚ l.
Proof.
  unfold sort_by. cut (forall acc, fold_left (fun acc x => insert_by lt x acc) l acc ≡ₚ l ++ acc).
  { intros H. rewrite H, app_nil_r. reflexivity. }
  induction l as [|x t IH]; intros acc; simpl; [reflexivity|].
  rewrite IH, insert_by_perm. symmetry. apply Permutation_middle.
Qed.

Lemma sort_by_Qltb_sorted l : Sorted Qle (sort_by Qltb l).
Proof.
  unfold sort_by. cut (forall acc, Sorted Qle acc ->
    Sorted Qle (fold_left (fun acc x => insert_by Qltb x acc) l acc)).
  { intros H. apply H. constructor. }
  induction l as [|x t IH]; intros acc Ha; simpl; [exact Ha|].
  apply IH, insert_by_Qltb_sorted, Ha.
Qed.

Lemma quarter_index n :
  Z.to_nat (Qfloor (inject_Z (Z.of_nat n) * (1 # 4))%Q) = (n / 4)%nat.
Proof.
  unfold Qfloor, inject_Z, Qmult. cbn [Qnum Qden]. rewrite Z.mul_1_r.
  change (Z.pos (1 * 4)) with (Z.of_nat 4).
  rewrite <- (Nat2Z.id (n / 4)), Nat2Z.inj_div. reflexivity.
Qed.

Lemma three_quarter_index n :
  Z.to_nat (Qfloor (inject_Z (Z.of_nat n) * (3 # 4))%Q) = (n * 3 / 4)%nat.
Proof.
  unfold Qfloor, inject_Z, Qmult. cbn [Qnum Qden].
  change (Z.pos (1 * 4)) with (Z.of_nat 4). change 3%Z with (Z.of_nat 3).
  rewrite <- (Nat2Z.id (n * 3 / 4)), Nat2Z.inj_div, Nat2Z.inj_mul. reflexivity.
Qed.

(** The bounds as the specification describes them, on an ascending list:
    Q1 at index [floor(n * 0.25)], Q3 at index [floor(n * 0.75)]. *)
Definition positional_bounds (sorted : list Q) : Q * Q :=
  let n := List.length sorted in
  let q1 := nth (n / 4) sorted 0%Q in
  let q3 := nth (n * 3 / 4) sorted 0%Q in
  let iqr := (q3 - q1)%Q in
  ((q1 - (3 # 2) * iqr)%Q, (q3 + (3 # 2) * iqr)%Q).

(** A row survives the filter of a column when its value does not parse
    or lies within the bounds. *)
Definition keep_row (h : heap) (col : string) (lo hi : Q) (l : loc) : bool :=
  match js_parseFloat (get (deref h l) col) with
  | NaN => true
  | Fin v => Qle_bool lo v && Qle_bool v hi
  end.

Lemma iqr_bounds_positional vs :
  iqr_bounds vs = positional_bounds (sort_by Qltb vs).
Proof.
  unfold iqr_bounds, positional_bounds.
  rewrite quarter_index, three_quarter_index. reflexivity.
Qed.

Lemma length_filter_le {A} (f : A -> bool) l : (List.length (List.filter f l) <= List.length l)%nat.
Proof. induction l as [|x t IH]; simpl; [lia|]. destruct (f x); simpl; lia. Qed.

Lemma filter_full {A} (f : A -> bool) l :
  List.length (List.filter f l) = List.length l -> List.filter f l = l.
Proof.
  induction l as [|x t IH]; simpl; intros H; [reflexivity|].
  destruct (f x).
  - simpl in H. rewrite IH; [reflexivity|lia].
  - pose proof (length_filter_le f t). lia.
Qed.

Lemma outlier_filter_spec h col lo hi data :
  outlier_filter h col lo hi data =
    (List.filter (keep_row h col lo hi) data,
     (List.length data - List.length (List.filter (keep_row h col lo hi) data))%nat).
Proof.
  induction data as [|l t IH]; simpl; [reflexivity|].
  rewrite IH. pose proof (length_filter_le (keep_row h col lo hi) t) as Hle.
  replace (keep_row h col lo hi l) with
    (match js_parseFloat (get (deref h l) col) with
     | NaN => true | Fin v => Qle_bool lo v && Qle_bool v hi end) by reflexivity.
  destruct (js_parseFloat (get (deref h l) col)) as [|v].
  - simpl. f_equal.
  - unfold Qltb. rewrite <- negb_andb.
    destruct (Qle_bool lo v && Qle_bool v hi); simpl; f_equal; lia.
Qed.

Definition scenarioB_rows : list row :=
  map (fun s => [("v", CStr s)]) ["1"; "2"; "3"; "4"; "100"].

(** The rows kept in Scenario B; they are converted to numbers when the
    column type was recorded (standardization on) and types are fixed. *)
Definition scenarioB_kept (converted : bool) : list row :=
  if converted
  then map (fun q => [("v", CNum (Fin q))]) [1; 2; 3; 4]%Q
  else map (fun s => [("v", CStr s)]) ["1"; "2"; "3"; "4"].

Definition outlier_count_of (r : js_error + (list row * stats)) : option nat :=
  match r with inl _ => None | inr (_, st) => Some (outlierCount st) end.

(** C5: one column of the outlier filter. The parsed values of the column
    are sorted ascending; the bounds are [Q1 - 1.5 IQR, Q3 + 1.5 IQR] with
    Q1 and Q3 taken at the positions [floor(n * 0.25)] and [floor(n * 0.75)]
    of the sorted list; the rows kept are exactly those whose value does not
    parse or lies within the bounds, in order; [outlierCount] grows by the
    number of rows removed and the rows themselves are not changed. On the
    column [1, 2, 3, 4, 100] the bounds are [-1, 7], the row with 100 is
    removed and [outlierCount] is 1. *)
Theorem remove_outliers_column_spec data col s d' s' :
  remove_outliers_column data col s = inr (d', s') ->
  let h := st_heap s in
  let numericValues := fin_values (map (fun l => js_parseFloat (get (deref h l) col)) data) in
  let sorted := sort_by Qltb numericValues in
  Sorted Qle sorted /\ sorted ≡ₚ numericValues /\
  iqr_bounds numericValues = positional_bounds sorted /\
  st_heap s' = h /\
  (numericValues = [] -> d' = data /\ st_stats s' = st_stats s) /\
  (numericValues <> [] ->
     d' = List.filter (keep_row h col (fst (positional_bounds sorted))
                                     (snd (positional_bounds sorted))) data /\
     st_stats s' = set_outlierCount
                     (outlierCount (st_stats s) + (List.length data - List.length d'))
                     (st_stats s)) /\
  (fst (iqr_bounds [1; 2; 3; 4; 100]%Q) == -1 /\ snd (iqr_bounds [1; 2; 3; 4; 100]%Q) == 7)%Q /\
  (forall fixDataTypes standardizeColumnNames,
     let r := run_clean scenarioB_rows
                (mkOptions true fixDataTypes standardizeColumnNames Mean None) in
     cleaned_rows r = Some (scenarioB_kept (fixDataTypes && standardizeColumnNames)) /\ outlier_count_of r = Some 1%nat).
Proof.
  intros H h numericValues sorted.
  split; [apply sort_by_Qltb_sorted|].
  split; [apply sort_by_perm|].
  split; [apply iqr_bounds_positional|].
  assert (Hconc : (fst (iqr_bounds [1; 2; 3; 4; 100]%Q) == -1 /\
                   snd (iqr_bounds [1; 2; 3; 4; 100]%Q) == 7)%Q /\
    (forall fixDataTypes standardizeColumnNames,
     let r := run_clean scenarioB_rows
                (mkOptions true fixDataTypes standardizeColumnNames Mean None) in
     cleaned_rows r = Some (scenarioB_kept (fixDataTypes && standardizeColumnNames)) /\ outlier_count_of r = Some 1%nat)).
  { split; [split; vm_compute; reflexivity|].
    intros [] []; split; vm_compute; reflexivity. }
  unfold remove_outliers_column in H. cbv [bind get_heap] in H.
  fold h in H. fold numericValues in H.
  destruct numericValues as [|v vs] eqn:Hnv.
  - cbv [ret] in H. inversion H; subst. split; [reflexivity|].
    split; [auto|]. split; [intros Hn; contradiction Hn; reflexivity|exact Hconc].
  - rewrite iqr_bounds_positional in H. fold sorted in H.
    destruct (positional_bounds sorted) as [lo hi] eqn:Hb. cbn [fst snd].
    rewrite outlier_filter_spec in H. cbv [modify_stats ret] in H. cbn [st_heap st_stats] in H.
    pose proof (length_filter_le (keep_row h col lo hi) data) as Hle.
    destruct (Nat.ltb_spec (List.length (List.filter (keep_row h col lo hi) data))
                           (List.length data)) as [Hlt|Hge];
      inversion H; subst; clear H.
    + split; [reflexivity|]. split; [discriminate|]. split; [|exact Hconc].
      intros _. split; reflexivity.
    + assert (Hfull := filter_full (keep_row h col lo hi) d' ltac:(lia)).
      split; [reflexivity|]. split; [discriminate|]. split; [|exact Hconc].
      intros _. rewrite Hfull. split; [reflexivity|].
      reflexivity.
Qed.

Lemma remove_outliers_column_spec_witness :
  let s := mkState scenarioB_rows (mkStats 5 1 0 0 [] [] 0) in
  remove_outliers_column [0; 1; 2; 3; 4]%nat "v" s
    = inr ([0; 1; 2; 3]%nat, mkState scenarioB_rows (mkStats 5 1 0 0 [] [] 1)) /\
  [0; 1; 2; 3]%nat = List.filter (keep_row scenarioB_rows "v" (-1) 7) [0; 1; 2; 3; 4]%nat.
Proof.
  intros s. assert (H : remove_outliers_column [0; 1; 2; 3; 4]%nat "v" s
    = inr ([0; 1; 2; 3]%nat, mkState scenarioB_rows (mkStats 5 1 0 0 [] [] 1)))
    by (vm_compute; reflexivity).
  split; [exact H|].
  destruct (remove_outliers_column_spec _ _ _ _ _ H) as (_ & _ & _ & _ & _ & Hf & _).
  destruct (Hf ltac:(vm_compute; discriminate)) as [Hd _]. rewrite Hd at 1.
  vm_compute. reflexivity.
Defined.

(** ** Numeric coercion of a cell that does not parse *)

Definition blank_cell_stats : stats :=
  mkStats 1 1 0 0 [mkEntry "A" "a" "integer"] [("integer", 1%nat)] 0.

(** C2 (divergence): in a column recorded as integer (resp. float), a
    non-missing value that [parseInt] (resp. [parseFloat]) cannot parse is
    not left as it is: the coercion writes NaN into the new row. The single
    blank cell " " passes the numeric check of type inference
    ([Number(" ")] is 0), so with the default options the row
    [{"A": " "}] comes out as [{"a": NaN}]. *)
Theorem coerce_cell_parse_failure_writes_NaN newRow l col s ci :
  find_column (columnsRenamed (st_stats s)) col = Some ci ->
  is_missing (get (deref (st_heap s) l) col) = false ->
  (type ci = "integer" /\ js_parseInt (get (deref (st_heap s) l) col) = NaN) \/
  (type ci = "float" /\ js_parseFloat (get (deref (st_heap s) l) col) = NaN) ->
  coerce_cell newRow l col s
    = inr (tt, mkState (<[newRow := set_prop (deref (st_heap s) newRow) col (CNum NaN)]>
                          (st_heap s)) (st_stats s)) /\
  js_parseInt (CStr " ") = NaN /\ js_Number (CStr " ") = Fin 0 /\
  run_clean [[("A", CStr " ")]] default_options
    = inr ([[("a", CNum NaN)]], blank_cell_stats).
Proof.
  intros Hf Hm Ht.
  split; [|split; [reflexivity|split; [reflexivity|vm_compute; reflexivity]]].
  unfold coerce_cell. cbv [bind get_stats read]. rewrite Hf. rewrite Hm.
  destruct Ht as [[Ht Hp]|[Ht Hp]]; rewrite Ht; cbn -[js_parseInt js_parseFloat];
    rewrite Hp; reflexivity.
Qed.

Lemma coerce_cell_parse_failure_writes_NaN_witness :
  let s := mkState [[("a", CStr " ")]; [("a", CStr " ")]] blank_cell_stats in
  coerce_cell 1%nat 0%nat "a" s
    = inr (tt, mkState [[("a", CStr " ")]; [("a", CNum NaN)]] blank_cell_stats).
Proof.
  intros s.
  destruct (coerce_cell_parse_failure_writes_NaN 1%nat 0%nat "a" s
              (mkEntry "A" "a" "integer") ltac:(reflexivity) ltac:(reflexivity)
              ltac:(left; split; reflexivity)) as [H _].
  rewrite H. vm_compute. reflexivity.
Defined.

(** ** Objects: properties, keys and spread *)

Section Objects.
Context {A : Type}.

Lemma prop_in (o : obj A) k v : prop o k = Some v -> In k (map fst o).
Proof.
  induction o as [|[k' v'] t IH]; simpl; [discriminate|].
  destruct (String.eqb_spec k k'); [subst; auto|]. intros H. right. exact (IH H).
Qed.

Lemma prop_not_in (o : obj A) k : ~ In k (map fst o) -> prop o k = None.
Proof.
  induction o as [|[k' v'] t IH]; simpl; [reflexivity|]. intros Hn.
  destruct (String.eqb_spec k k'); [subst; tauto|]. apply IH. tauto.
Qed.

Lemma prop_in_some (o : obj A) k : In k (map fst o) -> exists v, prop o k = Some v.
Proof.
  induction o as [|[k' v'] t IH]; simpl; [tauto|]. intros Hk.
  destruct (String.eqb_spec k k'); [eauto|]. apply IH. destruct Hk; [congruence|auto].
Qed.

Lemma prop_set_prop_eq (o : obj A) k v : prop (set_prop o k v) k = Some v.
Proof.
  induction o as [|[k' v'] t IH]; simpl.
  - rewrite String.eqb_refl. reflexivity.
  - destruct (String.eqb_spec k k'); simpl.
    + subst. rewrite String.eqb_refl. reflexivity.
    + apply String.eqb_neq in n. rewrite n. exact IH.
Qed.

Lemma prop_set_prop_neq (o : obj A) k k' v :
  k' <> k -> prop (set_prop o k v) k' = prop o k'.
Proof.
  intros Hne. induction o as [|[k0 v0] t IH]; simpl.
  - apply String.eqb_neq in Hne. rewrite Hne. reflexivity.
  - destruct (String.eqb_spec k k0); simpl.
    + subst. apply String.eqb_neq in Hne. rewrite Hne. reflexivity.
    + rewrite IH. reflexivity.
Qed.

Lemma keys_set_prop (o : obj A) k v k' :
  In k' (map fst (set_prop o k v)) -> k' = k \/ In k' (map fst o).
Proof.
  induction o as [|[k0 v0] t IH]; simpl.
  - intros [H|[]]. auto.
  - destruct (String.eqb_spec k k0); simpl; intros [H|H]; auto.
    destruct (IH H); auto.
Qed.

Lemma prop_app (o1 o2 : obj A) k :
  prop (o1 ++ o2) k = match prop o1 k with Some v => Some v | None => prop o2 k end.
Proof.
  induction o1 as [|[k' v'] t IH]; simpl; [reflexivity|].
  destruct (String.eqb k k'); [reflexivity|exact IH].
Qed.

End Objects.

Lemma dedup_keys_in l k : In k (dedup_keys l) <-> In k l.
Proof.
  induction l as [|x t IH]; simpl; [tauto|].
  rewrite List.filter_In, IH. destruct (String.eqb_spec x k); simpl; split; intros H.
  - auto.
  - left. exact e.
  - destruct H as [H|[H _]]; auto.
  - destruct H as [H|H]; [auto|right; split; auto].
Qed.

Lemma NoDup_dedup_keys l : List.NoDup (dedup_keys l).
Proof.
  induction l as [|x t IH]; simpl; constructor.
  - rewrite List.filter_In. intros [_ H]. rewrite String.eqb_refl in H. discriminate.
  - apply List.NoDup_filter, IH.
Qed.

Lemma own_keys_in {A} (o : obj A) k : In k (own_keys o) <-> In k (map fst o).
Proof.
  unfold own_keys. rewrite in_app_iff, <- (dedup_keys_in (map fst o)).
  set (ks := dedup_keys (map fst o)). split.
  - intros [H|H].
    + apply (Permutation_in _ (sort_by_perm _ _)) in H. apply List.filter_In in H. tauto.
    + apply List.filter_In in H. tauto.
  - intros H. destruct (is_index k) eqn:E.
    + left. apply (Permutation_in _ (Permutation_sym (sort_by_perm _ _))).
      apply List.filter_In. auto.
    + right. apply List.filter_In. rewrite E. auto.
Qed.

Lemma NoDup_own_keys {A} (o : obj A) : List.NoDup (own_keys o).
Proof.
  unfold own_keys. pose proof (NoDup_dedup_keys (map fst o)) as N.
  apply List.NoDup_app.
  - eapply Permutation_NoDup; [symmetry; apply sort_by_perm|]. apply List.NoDup_filter, N.
  - apply List.NoDup_filter, N.
  - intros a H1 H2. apply (Permutation_in _ (sort_by_perm _ _)) in H1.
    apply List.filter_In in H1, H2. destruct H1 as [_ H1], H2 as [_ H2].
    rewrite H1 in H2. discriminate.
Qed.

Lemma prop_flat_map {A} (o : obj A) (ks : list string) k :
  List.NoDup ks ->
  prop (flat_map (fun k => match prop o k with Some v => [(k, v)] | None => [] end) ks) k
    = if in_dec string_dec k ks then prop o k else None.
Proof.
  induction ks as [|k0 t IH]; intros N; [reflexivity|]. cbn [flat_map].
  inversion N as [|? ? Hn Nt]; subst.
  rewrite prop_app, IH by exact Nt.
  destruct (String.eqb_spec k k0) as [->|Hne].
  - destruct (in_dec string_dec k0 (k0 :: t)) as [_|C]; [|exfalso; apply C; left; auto].
    destruct (in_dec string_dec k0 t); [contradiction|].
    destruct (prop o k0) eqn:E; simpl; [rewrite String.eqb_refl|]; auto.
  - assert (Hp : prop match prop o k0 with Some v => [(k0, v)] | None => [] end k = None).
    { destruct (prop o k0); simpl; [|reflexivity].
      apply String.eqb_neq in Hne. rewrite Hne. reflexivity. }
    rewrite Hp.
    destruct (in_dec string_dec k t), (in_dec string_dec k (k0 :: t)); auto.
    + exfalso. apply n. right. exact i.
    + exfalso. destruct i; [congruence|contradiction].
Qed.

Lemma prop_entries {A} (o : obj A) k : prop (entries o) k = prop o k.
Proof.
  unfold entries. rewrite prop_flat_map by apply NoDup_own_keys.
  destruct (in_dec string_dec k (own_keys o)) as [_|Hn]; [reflexivity|].
  symmetry. apply prop_not_in. rewrite <- own_keys_in. exact Hn.
Qed.

Lemma get_spread r k : get (spread r) k = get r k.
Proof. unfold get, spread. rewrite prop_entries. reflexivity. Qed.

Lemma get_set_prop_eq (r : row) k v : get (set_prop r k v) k = v.
Proof. unfold get. rewrite prop_set_prop_eq. reflexivity. Qed.

Lemma get_set_prop_neq (r : row) k k' v : k' <> k -> get (set_prop r k v) k' = get r k'.
Proof. intros H. unfold get. rewrite prop_set_prop_neq by exact H. reflexivity. Qed.

(** ** The replacement value is never missing *)

Lemma append_nonempty_l (s1 s2 : string) : s1 <> "" -> (s1 ++ s2)%string <> "".
Proof. destruct s1; simpl; [contradiction|discriminate]. Qed.

Lemma append_nonempty_r (s1 s2 : string) : s2 <> "" -> (s1 ++ s2)%string <> "".
Proof. destruct s1; simpl; [auto|discriminate]. Qed.

Lemma N_digits_nonempty fuel n acc :
  (fuel <> O \/ acc <> "") -> N_digits fuel n acc <> "".
Proof.
  revert n acc. induction fuel as [|f IH]; intros n acc H; simpl.
  - destruct H; [contradiction|assumption].
  - destruct (n / 10 =? 0)%N; [discriminate|]. apply IH. right. discriminate.
Qed.

Lemma num_to_string_nonempty n : num_to_string n <> "".
Proof.
  destruct n as [|q]; [discriminate|]. cbv [num_to_string]. cbv zeta.
  apply append_nonempty_r, append_nonempty_l.
  unfold N_to_decimal. apply N_digits_nonempty. left. discriminate.
Qed.

Lemma count_values_keys {B} (key : B -> string) vals k :
  In k (map fst (count_values key vals)) -> exists v, In v vals /\ k = key v.
Proof.
  unfold count_values.
  cut (forall acc, In k (map fst (fold_left (fun acc v =>
         let k := key v in
         set_prop acc k (S (match prop acc k with Some n => n | None => O end))) vals acc)) ->
       In k (map fst acc) \/ exists v, In v vals /\ k = key v).
  { intros H Hk. destruct (H [] Hk) as [[]|R]. exact R. }
  induction vals as [|v t IH]; simpl; intros acc Hk; [auto|].
  destruct (IH _ Hk) as [H|(v' & Hv' & ->)].
  - apply keys_set_prop in H as [->|H]; eauto.
  - eauto.
Qed.

Lemma most_frequent_key counts k :
  most_frequent counts = inr k -> In k (map fst counts).
Proof.
  unfold most_frequent.
  destruct (sort_by _ (entries counts)) as [|[k' n] t] eqn:E; [discriminate|].
  intros H. inversion H; subst k'. clear H.
  assert (Hin : In (k, n) (entries counts)).
  { apply (Permutation_in _ (sort_by_perm (fun a b => (snd b <? snd a)%nat) _)).
    rewrite E. left. reflexivity. }
  unfold entries in Hin. apply in_flat_map in Hin as (k0 & Hk0 & Hin).
  destruct (prop counts k0); [|destruct Hin].
  destruct Hin as [Heq|[]]. inversion Heq; subst. apply own_keys_in. exact Hk0.
Qed.

Definition imputes_everything (opts : options) : Prop :=
  missingValueStrategy opts <> Constant \/
  exists c, constantValue opts = Some c /\ c <> "".

Lemma replacement_value_not_missing opts vals rv :
  imputes_everything opts ->
  Forall (fun v => is_missing v = false) vals ->
  replacement_value opts vals = inr rv -> is_missing rv = false.
Proof.
  intros Hopts Hvals. unfold replacement_value.
  assert (Hmf : forall {B} (key : B -> string) xs,
            (forall x, In x xs -> key x <> "") ->
            match most_frequent (count_values key xs) with
            | inl e => inl e | inr k => inr (CStr k) end = inr rv ->
            is_missing rv = false).
  { intros B key xs Hkey H.
    destruct (most_frequent _) as [|k] eqn:E; [discriminate|].
    inversion H; subst. apply most_frequent_key, count_values_keys in E as (x & Hx & ->).
    simpl. apply String.eqb_neq, Hkey, Hx. }
  destruct (missingValueStrategy opts) eqn:Hs.
  4:{ destruct Hopts as [C|(c & Hc & Hne)]; [contradiction|].
      rewrite Hc. intros H. inversion H. simpl.
      apply String.eqb_neq in Hne. rewrite Hne. exact Hne. }
  all: destruct (fin_values _) as [|q qs] eqn:Hq;
    [apply (Hmf _ to_js_string);
     intros x Hx; eapply List.Forall_forall in Hvals; [|exact Hx];
     destruct x as [| |[]|n|s]; simpl; try discriminate; try apply num_to_string_nonempty;
     apply String.eqb_neq in Hvals; exact Hvals
    |].
  - intros H. inversion H. reflexivity.
  - intros H. inversion H. reflexivity.
  - apply (Hmf _ (fun v => num_to_string (Fin v))). intros x _. apply num_to_string_nonempty.
Qed.

(** ** Filling the missing cells of a column *)

Definition missing_count (h : heap) (col : string) (data : list loc) : nat :=
  List.length (List.filter (fun l => is_missing (get (deref h l) col)) data).

(** Row [l'] of heap [h'] is row [l] of heap [h] with column [col] no
    longer missing and every other column as it was. *)
Definition filled (col : string) (h h' : heap) (l l' : loc) : Prop :=
  is_missing (get (deref h' l') col) = false /\
  forall c, c <> col -> get (deref h' l') c = get (deref h l) c.

Lemma deref_app (h e : heap) l : (l < List.length h)%nat -> deref (h ++ e) l = deref h l.
Proof. intros H. unfold deref. rewrite lookup_app_l by exact H. reflexivity. Qed.

Lemma missing_count_app (h e : heap) col D :
  Forall (fun l => l < List.length h)%nat D ->
  missing_count (h ++ e) col D = missing_count h col D.
Proof.
  unfold missing_count. induction 1 as [|l t Hl _ IH]; [reflexivity|]. simpl.
  rewrite deref_app by exact Hl. destruct (is_missing _); simpl; auto.
Qed.

Lemma filled_app col (h e h' : heap) D D' :
  Forall (fun l => l < List.length h)%nat D ->
  Forall2 (filled col (h ++ e) h') D D' -> Forall2 (filled col h h') D D'.
Proof.
  intros HD H. induction H as [|l l' t t' [Hm Hc] _ IH]; constructor.
  - inversion HD; subst. split; [exact Hm|]. intros c Hne.
    rewrite Hc by exact Hne. rewrite deref_app; auto.
  - inversion HD; auto.
Qed.

Lemma Forall_valid_app (h e : heap) D :
  Forall (fun l => l < List.length h)%nat D -> Forall (fun l => l < List.length (h ++ e))%nat D.
Proof. intros H. eapply Forall_impl; [exact H|]. intros l Hl. cbv beta in *. rewrite length_app. lia. Qed.

Lemma nullValuesFixed_set n s : nullValuesFixed (set_nullValuesFixed n s) = n.
Proof. destruct s; reflexivity. Qed.

Lemma mapM_fill_missing col rv D s D' s' :
  is_missing rv = false ->
  mapM (fill_missing col rv) D s = inr (D', s') ->
  Forall (fun l => l < List.length (st_heap s))%nat D ->
  (exists e, st_heap s' = st_heap s ++ e)%list /\
  Forall (fun l => l < List.length (st_heap s'))%nat D' /\
  Forall2 (filled col (st_heap s) (st_heap s')) D D' /\
  nullValuesFixed (st_stats s') = (nullValuesFixed (st_stats s) + missing_count (st_heap s) col D)%nat.
Proof.
  intros Hrv. revert s D' s'.
  induction D as [|l t IH]; intros s D' s' H HD; simpl in H.
  - inversion H; subst. split; [exists []; rewrite app_nil_r; reflexivity|].
    split; [constructor|]. split; [constructor|]. unfold missing_count. simpl. lia.
  - inv_bind H. inv_bind Hk. cbv [ret] in Hk0. inversion Hk0; subst; clear Hk0.
    inversion HD as [|? ? Hl Ht]; subst.
    unfold fill_missing in Hm. cbv [bind read] in Hm.
    destruct (is_missing (get (deref (st_heap s) l) col)) eqn:Em.
    + cbv [modify_stats alloc] in Hm. cbn [st_heap st_stats] in Hm.
      inversion Hm; subst; clear Hm. cbn [st_heap st_stats] in *.
      set (h := st_heap s) in *.
      set (r := set_prop (spread (deref h l)) col rv) in *.
      destruct (IH _ _ _ Hm0 (Forall_valid_app h [r] t Ht))
        as ((e & He) & Hv & Hf & Hn).
      cbn [st_heap st_stats] in He, Hf, Hn. rewrite <- app_assoc in He.
      split; [eauto|]. rewrite He in *.
      assert (Hr : deref (h ++ [r] ++ e) (List.length h) = r).
      { rewrite app_assoc, deref_app by (rewrite length_app; simpl; lia).
        unfold deref. rewrite lookup_app_r, Nat.sub_diag by lia. reflexivity. }
      split; [constructor; [rewrite !length_app; simpl; lia|exact Hv]|].
      split.
      * constructor.
        -- split; [rewrite Hr; unfold r; rewrite get_set_prop_eq; exact Hrv|].
           intros c Hne. rewrite Hr. unfold r. rewrite get_set_prop_neq by exact Hne.
           apply get_spread.
        -- exact (filled_app _ _ _ _ _ _ Ht Hf).
      * rewrite Hn, nullValuesFixed_set, missing_count_app by exact Ht.
        unfold missing_count. simpl. rewrite Em. simpl. lia.
    + cbv [ret] in Hm. inversion Hm; subst; clear Hm.
      destruct (IH _ _ _ Hm0 Ht) as ((e & He) & Hv & Hf & Hn).
      split; [eauto|]. split; [constructor; [rewrite He, length_app; lia|exact Hv]|].
      split.
      * constructor; [|exact Hf]. unfold filled. rewrite He, deref_app by exact Hl.
        split; [exact Em|reflexivity].
      * rewrite Hn. unfold missing_count. simpl. rewrite Em. reflexivity.
Qed.

Lemma Forall2_diag {X} (R : X -> X -> Prop) l :
  (forall x, In x l -> R x x) -> Forall2 R l l.
Proof. induction l as [|x t IH]; intros H; constructor; [apply H; left; auto|apply IH; intros; apply H; right; auto]. Qed.

Lemma Forall2_compose {X Y Z} (P : X -> Y -> Prop) (Q : Y -> Z -> Prop) (R : X -> Z -> Prop)
      xs ys zs :
  (forall x y z, P x y -> Q y z -> R x z) ->
  Forall2 P xs ys -> Forall2 Q ys zs -> Forall2 R xs zs.
Proof.
  intros HR H1. revert zs. induction H1 as [|x y xs ys Hp _ IH]; intros zs H2;
    inversion H2; subst; constructor; eauto.
Qed.

Lemma missing_count_filled col c h h1 D D1 :
  c <> col -> Forall2 (filled col h h1) D D1 ->
  missing_count h1 c D1 = missing_count h c D.
Proof.
  intros Hne H. unfold missing_count.
  induction H as [|l l1 t t1 [_ Hc] _ IH]; [reflexivity|]. simpl.
  rewrite Hc by exact Hne. destruct (is_missing _); simpl; auto.
Qed.

Lemma impute_column_spec opts D col s D' s' :
  imputes_everything opts ->
  impute_column opts D col s = inr (D', s') ->
  Forall (fun l => l < List.length (st_heap s))%nat D ->
  (exists e, st_heap s' = st_heap s ++ e)%list /\
  Forall (fun l => l < List.length (st_heap s'))%nat D' /\
  Forall2 (filled col (st_heap s) (st_heap s')) D D' /\
  nullValuesFixed (st_stats s') = (nullValuesFixed (st_stats s) + missing_count (st_heap s) col D)%nat.
Proof.
  intros Hopts H HD. unfold impute_column in H. cbv [bind get_heap] in H.
  destruct (_ =? 0)%nat eqn:E.
  - cbv [ret] in H. inversion H; subst; clear H. apply Nat.eqb_eq in E.
    assert (Hnm : forall l, In l D' -> is_missing (get (deref (st_heap s') l) col) = false).
    { intros l Hl. destruct (is_missing _) eqn:Em; [|reflexivity].
      destruct (List.filter _ D') eqn:Ef; [|discriminate E].
      assert (In l (List.filter (fun l => is_missing (get (deref (st_heap s') l) col)) D'))
        by (apply List.filter_In; auto).
      rewrite Ef in H. destruct H. }
    split; [exists []; rewrite app_nil_r; reflexivity|]. split; [exact HD|].
    split; [apply Forall2_diag; intros l Hl; split; [apply Hnm, Hl|reflexivity]|].
    unfold missing_count. rewrite E. lia.
  - cbv [lift] in H.
    destruct (replacement_value opts _) as [e|rv] eqn:Hr; [discriminate H|].
    apply replacement_value_not_missing in Hr; [|exact Hopts|].
    + exact (mapM_fill_missing col rv D s D' s' Hr H HD).
    + apply List.Forall_forall. intros v Hv. apply List.filter_In in Hv as [_ Hv].
      destruct (is_missing v); [discriminate Hv|reflexivity].
Qed.

Lemma foldM_impute_column opts cols D s D' s' :
  imputes_everything opts -> List.NoDup cols ->
  foldM (impute_column opts) D cols s = inr (D', s') ->
  Forall (fun l => l < List.length (st_heap s))%nat D ->
  (exists e, st_heap s' = st_heap s ++ e)%list /\
  Forall (fun l => l < List.length (st_heap s'))%nat D' /\
  Forall2 (fun l l' =>
             (forall col, In col cols -> is_missing (get (deref (st_heap s') l') col) = false) /\
             (forall c, ~ In c cols -> get (deref (st_heap s') l') c = get (deref (st_heap s) l) c))
          D D' /\
  nullValuesFixed (st_stats s') =
    (nullValuesFixed (st_stats s) +
     list_sum (map (fun col => missing_count (st_heap s) col D) cols))%nat.
Proof.
  intros Hopts. revert D s.
  induction cols as [|col cols IH]; intros D s N H HD; simpl in H.
  - cbv [ret] in H. inversion H; subst; clear H.
    split; [exists []; rewrite app_nil_r; reflexivity|]. split; [exact HD|].
    split; [apply Forall2_diag; intros l _; split; [intros _ []|reflexivity]|].
    simpl. lia.
  - inv_bind H. inversion N as [|? ? Hnin Nt]; subst.
    destruct (impute_column_spec _ _ _ _ _ _ Hopts Hm HD) as ((e1 & He1) & Hv1 & Hf1 & Hn1).
    destruct (IH _ _ Nt Hk Hv1) as ((e2 & He2) & Hv2 & Hf2 & Hn2).
    split; [exists (e1 ++ e2)%list; rewrite He2, He1, app_assoc; reflexivity|].
    split; [exact Hv2|]. split.
    + refine (Forall2_compose _ _ _ _ _ _ _ Hf1 Hf2).
      intros x y z [Hm1 Hc1] [Hm2 Hc2]. split.
      * intros c [<-|Hc]; [|apply Hm2, Hc]. rewrite Hc2 by exact Hnin. exact Hm1.
      * intros c Hc. rewrite Hc2 by (intros C; apply Hc; right; exact C).
        apply Hc1. intros C; apply Hc; left; auto.
    + rewrite Hn2, Hn1. simpl. rewrite <- Nat.add_assoc. f_equal. f_equal.
      f_equal. apply map_ext_in. intros c Hc.
      apply (missing_count_filled col); [intros ->; contradiction|exact Hf1].
Qed.

(** ** Completeness of the imputation stage *)

(** C1 (counterexample): under the constant strategy the stage is skipped
    when no constant is supplied, and with the empty constant the empty
    cell is replaced by [""]: in both runs the cell stays missing. *)
Lemma impute_constant_leaves_missing :
  run_clean [[("a", CStr "")]] (mkOptions false false false Constant None)
    = inr ([[("a", CStr "")]], mkStats 1 1 0 0 [] [] 0) /\
  run_clean [[("a", CStr "")]] (mkOptions false false false Constant (Some ""))
    = inr ([[("a", CStr "")]], mkStats 1 1 0 1 [] [] 0) /\
  is_missing (CStr "") = true.
Proof. split; [|split]; vm_compute; reflexivity. Qed.

(** C1 (amended): with the mean, median or mode strategy, or with the
    constant strategy and a supplied non-empty constant, whenever the
    imputation stage returns, every output row is its input row with no
    cell of the columns of the first row missing and every other column
    unchanged, and [nullValuesFixed] has grown by the number of missing
    cells of those columns. *)
Theorem impute_completes opts l0 rest s d' s' :
  imputes_everything opts ->
  Forall (fun l => l < List.length (st_heap s))%nat (l0 :: rest) ->
  impute opts (l0 :: rest) s = inr (d', s') ->
  let cols := own_keys (deref (st_heap s) l0) in
  Forall2 (fun l l' =>
             (forall col, In col cols -> is_missing (get (deref (st_heap s') l') col) = false) /\
             (forall c, ~ In c cols -> get (deref (st_heap s') l') c = get (deref (st_heap s) l) c))
          (l0 :: rest) d' /\
  nullValuesFixed (st_stats s') =
    (nullValuesFixed (st_stats s) +
     list_sum (map (fun col => missing_count (st_heap s) col (l0 :: rest)) cols))%nat.
Proof.
  intros Hopts HD H cols. unfold impute in H.
  replace (negb (is_constant (missingValueStrategy opts)) || _) with true in H.
  2:{ destruct Hopts as [Hs|(c & Hc & _)].
      - destruct (missingValueStrategy opts); [reflexivity..|contradiction Hs; reflexivity].
      - rewrite Hc, orb_true_r. reflexivity. }
  cbv [bind get_heap] in H.
  destruct (foldM_impute_column _ _ _ _ _ _ Hopts (NoDup_own_keys _) H HD)
    as (_ & _ & Hf & Hn).
  split; [exact Hf|exact Hn].
Qed.

Lemma impute_completes_witness :
  let s := mkState [[("a", CStr "1")]; [("a", CStr "")]] (mkStats 2 1 0 0 [] [] 0) in
  impute default_options [0; 1]%nat s
    = inr ([0; 2]%nat, mkState [[("a", CStr "1")]; [("a", CStr "")]; [("a", CNum (Fin 1))]]
                               (mkStats 2 1 0 1 [] [] 0)) /\
  is_missing (get (deref [[("a", CStr "1")]; [("a", CStr "")]; [("a", CNum (Fin 1))]] 2) "a")
    = false.
Proof.
  intros s.
  assert (H : impute default_options [0; 1]%nat s
    = inr ([0; 2]%nat, mkState [[("a", CStr "1")]; [("a", CStr "")]; [("a", CNum (Fin 1))]]
                               (mkStats 2 1 0 1 [] [] 0))) by (vm_compute; reflexivity).
  split; [exact H|].
  destruct (impute_completes default_options 0%nat [1%nat] s _ _
              ltac:(left; discriminate) ltac:(repeat constructor; simpl; lia) H) as [Hf _].
  inversion Hf as [|? ? ? ? _ Hf2]; subst. inversion Hf2 as [|? ? ? ? [Hm _] _]; subst.
  apply Hm. vm_compute. left. reflexivity.
Defined.


(** ** Column names: the cleaned alphabet *)


Lemma is_clean_char_word c : is_clean_char c = true -> is_word c = true.
Proof.
  unfold is_clean_char, is_word. intros H.
  destruct (is_lower c), (is_digit c), (code c =? 95)%nat; simpl in *; try reflexivity;
    try discriminate; rewrite ?orb_true_r; reflexivity.
Qed.

Ltac nat_bool :=
  repeat match goal with
  | |- context [Nat.leb ?a ?b] => destruct (Nat.leb_spec a b)
  | |- context [Nat.eqb ?a ?b] => destruct (Nat.eqb_spec a b)
  end; simpl; try lia; try discriminate; try reflexivity.

Lemma is_clean_char_not_ws c : is_clean_char c = true -> is_ws c = false.
Proof. unfold is_clean_char, is_lower, is_digit, is_ws. nat_bool. Qed.

Lemma is_clean_char_lower c : is_clean_char c = true -> to_lower c = c.
Proof.
  unfold to_lower. destruct (is_upper c) eqn:U; [|reflexivity]. revert U.
  unfold is_clean_char, is_upper, is_lower, is_digit. nat_bool.
Qed.

Lemma to_lower_not_upper c : is_upper (to_lower c) = false.
Proof.
  unfold to_lower. destruct (is_upper c) eqn:U; [|exact U].
  unfold is_upper in *. apply andb_true_iff in U as [U1 U2]. apply Nat.leb_le in U1, U2.
  unfold code in *. rewrite nat_ascii_embedding by lia.
  apply andb_false_iff. right. apply Nat.leb_gt. lia.
Qed.

Lemma collapse_ws_in b cs c :
  In c (collapse_ws b cs) -> c = "_"%char \/ In c cs.
Proof.
  revert b. induction cs as [|x t IH]; intros b; simpl; [tauto|].
  destruct (is_ws x), b; simpl; intros H.
  - destruct (IH _ H); auto.
  - destruct H as [H|H]; [auto|destruct (IH _ H); auto].
  - destruct H as [H|H]; [auto|destruct (IH _ H); auto].
  - destruct H as [H|H]; [auto|destruct (IH _ H); auto].
Qed.

Lemma collapse_ws_id b cs :
  Forall (fun c => is_ws c = false) cs -> collapse_ws b cs = cs.
Proof.
  revert b. induction cs as [|x t IH]; intros b F; simpl; [reflexivity|].
  inversion F as [|? ? Hx Ft]; subst. rewrite Hx, IH by exact Ft. reflexivity.
Qed.

Lemma clean_column_name_chars col :
  Forall (fun c => is_clean_char c = true) (list_ascii_of_string (clean_column_name col)).
Proof.
  unfold clean_column_name. rewrite list_ascii_of_string_of_list_ascii.
  apply List.Forall_forall. intros c Hc. apply List.filter_In in Hc as [Hin Hw].
  apply collapse_ws_in in Hin as [->|Hin]; [reflexivity|].
  apply in_map_iff in Hin as (c0 & <- & _).
  pose proof (to_lower_not_upper c0) as U. revert Hw U.
  unfold is_word, is_clean_char. set (d := to_lower c0).
  destruct (is_digit d), (is_upper d), (is_lower d), (code d =? 95)%nat; simpl; auto.
Qed.

(** ** Statistics kept by the cleaning stages *)


Lemma keeps_ret {A} (a : A) : keeps_cols (ret a).
Proof. intros s b s' H. inversion H; subst. reflexivity. Qed.

Lemma keeps_throw {A} e : keeps_cols (@throw A e).
Proof. intros s b s' H. discriminate. Qed.

Lemma keeps_lift {A} (r : js_error + A) : keeps_cols (lift r).
Proof. intros s b s' H. destruct r; inversion H; subst. reflexivity. Qed.

Lemma keeps_get_heap : keeps_cols get_heap.
Proof. intros s b s' H. inversion H; subst. reflexivity. Qed.

Lemma keeps_get_stats : keeps_cols get_stats.
Proof. intros s b s' H. inversion H; subst. reflexivity. Qed.

Lemma keeps_read l : keeps_cols (read l).
Proof. intros s b s' H. inversion H; subst. reflexivity. Qed.

Lemma keeps_write l k v : keeps_cols (write l k v).
Proof. intros s b s' H. inversion H; subst. reflexivity. Qed.

Lemma keeps_alloc r : keeps_cols (alloc r).
Proof. intros s b s' H. inversion H; subst. reflexivity. Qed.

Lemma keeps_modify_stats f :
  (forall st, cols_of (f st) = cols_of st) -> keeps_cols (modify_stats f).
Proof. intros Hf s b s' H. inversion H; subst. apply Hf. Qed.

Lemma keeps_bind {A B} (m : M A) (k : A -> M B) :
  keeps_cols m -> (forall a, keeps_cols (k a)) -> keeps_cols (bind m k).
Proof.
  intros Hm Hk s b s'' H. inv_bind H.
  rewrite (Hk _ _ _ _ Hk0). exact (Hm _ _ _ Hm0).
Qed.

Lemma keeps_mapM {A B} (f : A -> M B) (l : list A) :
  (forall x, keeps_cols (f x)) -> keeps_cols (mapM f l).
Proof.
  intros Hf. induction l as [|x t IH]; simpl.
  - apply keeps_ret.
  - apply keeps_bind; [auto|]. intros y. apply keeps_bind; [auto|]. intros. apply keeps_ret.
Qed.

Lemma keeps_foldM {A B} (f : B -> A -> M B) (l : list A) :
  (forall acc x, keeps_cols (f acc x)) -> forall acc, keeps_cols (foldM f acc l).
Proof.
  intros Hf. induction l as [|x t IH]; intros acc; simpl.
  - apply keeps_ret.
  - apply keeps_bind; auto.
Qed.

Lemma keeps_forEach {A} (f : A -> M unit) (l : list A) :
  (forall x, keeps_cols (f x)) -> keeps_cols (forEach f l).
Proof.
  intros Hf. induction l as [|x t IH]; simpl.
  - apply keeps_ret.
  - apply keeps_bind; auto.
Qed.

Ltac solve_keeps :=
  repeat match goal with
  | |- forall _, _ => intro
  | |- keeps_cols (bind _ _) => apply keeps_bind
  | |- keeps_cols (ret _) => apply keeps_ret
  | |- keeps_cols (alloc _) => apply keeps_alloc
  | |- keeps_cols (throw _) => apply keeps_throw
  | |- keeps_cols (lift _) => apply keeps_lift
  | |- keeps_cols get_heap => apply keeps_get_heap
  | |- keeps_cols get_stats => apply keeps_get_stats
  | |- keeps_cols (modify_stats _) =>
      apply keeps_modify_stats; let st := fresh "st" in intros st; destruct st; reflexivity
  | |- keeps_cols (read _) => apply keeps_read
  | |- keeps_cols (write _ _ _) => apply keeps_write
  | |- keeps_cols (mapM _ _) => apply keeps_mapM
  | |- keeps_cols (foldM _ _ _) => apply keeps_foldM
  | |- keeps_cols (forEach _ _) => apply keeps_forEach
  | |- keeps_cols (match ?x with _ => _ end) => destruct x
  | |- keeps_cols (if ?b then _ else _) => destruct b
  | |- _ => progress cbv beta
  end.

Lemma keeps_dedupe data : keeps_cols (dedupe data).
Proof. unfold dedupe. solve_keeps. Qed.

Lemma keeps_impute opts data : keeps_cols (impute opts data).
Proof. unfold impute, impute_column, fill_missing. solve_keeps. Qed.

Lemma keeps_remove_outliers opts data : keeps_cols (remove_outliers opts data).
Proof. unfold remove_outliers, remove_outliers_column. solve_keeps. Qed.

Lemma keeps_fix_types opts data : keeps_cols (fix_types opts data).
Proof. unfold fix_types, coerce_cell. solve_keeps. Qed.


Lemma infer_type_result samples t : infer_type samples = inr t -> In t inferred_types.
Proof.
  unfold infer_type. destruct (forallb _ _).
  - destruct (js_some _ _) as [e|b]; [discriminate|]. intros H; inversion H; subst.
    destruct b; simpl; auto.
  - destruct (forallb _ _); intros H; inversion H; subst; simpl; auto.
Qed.


Lemma type_count_app t es e :
  type_count t (es ++ [e])%list = (type_count t es + if String.eqb (type e) t then 1 else 0)%nat.
Proof.
  unfold type_count. rewrite List.filter_app, length_app. simpl.
  destruct (String.eqb (type e) t); reflexivity.
Qed.

Lemma record_column_ok e st :
  summary_ok st -> summary_ok (record_column e st).
Proof.
  unfold summary_ok, record_column. cbn [dataTypeSummary columnsRenamed]. intros H t.
  rewrite type_count_app.
  destruct (String.eqb_spec (type e) t) as [<-|Hne].
  - rewrite prop_set_prop_eq, H.
    destruct (type_count (type e) (columnsRenamed st) =? 0)%nat eqn:E.
    + apply Nat.eqb_eq in E. rewrite E. reflexivity.
    + apply Nat.eqb_neq in E. replace (_ + 1 =? 0)%nat with false by (symmetry; apply Nat.eqb_neq; lia).
      f_equal. lia.
  - rewrite prop_set_prop_neq by congruence. rewrite H, Nat.add_0_r. reflexivity.
Qed.

Lemma foldM_record_column (f : obj string -> string -> M (obj string)) :
  (forall acc col s r s', f acc col s = inr (r, s') ->
     exists t, In t inferred_types /\
       st_stats s' = record_column (mkEntry col (clean_column_name col) t) (st_stats s)) ->
  forall cols acc s r s', foldM f acc cols s = inr (r, s') ->
    map original (columnsRenamed (st_stats s')) = (map original (columnsRenamed (st_stats s)) ++ cols)%list /\
    totalRows (st_stats s') = totalRows (st_stats s) /\
    totalColumns (st_stats s') = totalColumns (st_stats s) /\
    (Forall entry_ok (columnsRenamed (st_stats s)) -> Forall entry_ok (columnsRenamed (st_stats s'))) /\
    (summary_ok (st_stats s) -> summary_ok (st_stats s')).
Proof.
  intros Hf. induction cols as [|col t IH]; intros acc s r s' H; simpl in H; inv_run.
  - rewrite app_nil_r. auto.
  - destruct (Hf _ _ _ _ _ Hm) as (ty & Hty & E).
    destruct (IH _ _ _ _ Hk) as (K & R & C & F & S).
    rewrite E in K, R, C, F, S. cbn [record_column columnsRenamed totalRows totalColumns] in *.
    rewrite map_app, <- app_assoc in K. simpl in K.
    split; [exact K|]. split; [exact R|]. split; [exact C|]. split.
    + intros F0. apply F. apply List.Forall_app. split; [exact F0|].
      constructor; [|constructor]. split; [reflexivity|exact Hty].
    + intros S0. apply S. apply record_column_ok. exact S0.
Qed.

Lemma standardize_stats data s d s' :
  standardize data s = inr (d, s') ->
  map original (columnsRenamed (st_stats s')) =
    (map original (columnsRenamed (st_stats s)) ++ own_keys (deref (st_heap s) (List.hd O data)))%list /\
  totalRows (st_stats s') = totalRows (st_stats s) /\
  totalColumns (st_stats s') = totalColumns (st_stats s) /\
  (Forall entry_ok (columnsRenamed (st_stats s)) -> Forall entry_ok (columnsRenamed (st_stats s'))) /\
  (summary_ok (st_stats s) -> summary_ok (st_stats s')).
Proof.
  unfold standardize. intros H. inv_run. destruct data as [|l0 t]; [discriminate|].
  inv_run.
  assert (K : keeps_cols (mapM (fun l =>
              let* newRow := alloc [] in
              let* _ := forEach (fun '(originalCol, cleanedCol) =>
                                   let* row := read l in
                                   write newRow cleanedCol (get row originalCol))
                                (entries a) in
              ret newRow) (l0 :: t))) by solve_keeps.
  specialize (K _ _ _ Hk0). unfold cols_of in K. inversion K as [[R C Cr S]].
  match type of Hm with
  | foldM ?f _ _ _ = _ =>
      assert (Hf : forall acc col st r st', f acc col st = inr (r, st') ->
                exists ty, In ty inferred_types /\
                  st_stats st' = record_column (mkEntry col (clean_column_name col) ty) (st_stats st))
  end.
  { intros acc col st r st' Hs. cbv beta in Hs. inv_run.
    match goal with H : lift _ _ = inr _ |- _ => rename H into Hl end.
    destruct (infer_type _) as [e|ty] eqn:E; cbv [lift] in Hl; inversion Hl; subst.
    eexists. split; [eapply infer_type_result; eauto|reflexivity]. }
  destruct (foldM_record_column _ Hf _ _ _ _ _ Hm) as (K1 & K2 & K3 & K4 & K5).
  unfold summary_ok. rewrite R, C, Cr, S. simpl. auto.
Qed.

Lemma cleanData_stats h raw opts d st h' :
  cleanData h raw opts = inr ((d, st), h') ->
  totalRows st = List.length raw /\
  totalColumns st = List.length (own_keys (deref h (List.hd O raw))) /\
  map original (columnsRenamed st) =
    (if standardizeColumnNames opts then own_keys (deref h (List.hd O raw)) else []) /\
  Forall entry_ok (columnsRenamed st) /\ summary_ok st.
Proof.
  unfold cleanData. destruct raw as [|l0 t]; [discriminate|].
  destruct (pipeline _ _ _) as [e|[d0 s']] eqn:E; intros H; inversion H; subst; clear H.
  unfold pipeline in E. inv_bind E.
  assert (K : cols_of (st_stats s') = cols_of (st_stats s)).
  { inv_bind Hk. inv_bind Hk0. inv_bind Hk.
    rewrite (keeps_fix_types _ _ _ _ _ Hk0), (keeps_remove_outliers _ _ _ _ _ Hm2),
            (keeps_impute _ _ _ _ _ Hm1), (keeps_dedupe _ _ _ _ Hm0). reflexivity. }
  unfold cols_of in K. inversion K as [[R C Cr S]].
  unfold summary_ok, entry_ok. rewrite R, C, Cr, S. fold entry_ok.
  destruct (standardizeColumnNames opts).
  - destruct (standardize_stats _ _ _ _ Hm) as (K1 & K2 & K3 & K4 & K5).
    cbn [initial_stats st_stats st_heap totalRows totalColumns columnsRenamed] in *.
    rewrite K1, K2, K3. split; [reflexivity|]. split; [reflexivity|]. split; [reflexivity|].
    split; [apply K4; constructor|]. apply K5. intros ty. reflexivity.
  - inv_run. cbn. split; [reflexivity|]. split; [reflexivity|]. split; [reflexivity|].
    split; [constructor|]. intros ty. reflexivity.
Qed.

(** ** Deduplication keeps the first row of each serialization *)

Lemma dedup_filter_sublist h u data : fst (dedup_filter h u data) `sublist_of` data.
Proof.
  revert u. induction data as [|l t IH]; intros u; simpl; [constructor|].
  destruct (decide _).
  - specialize (IH u). destruct (dedup_filter h u t). simpl in *. constructor. exact IH.
  - specialize (IH ({[json_stringify (deref h l)]} ∪ u)).
    destruct (dedup_filter h _ t). simpl in *. constructor. exact IH.
Qed.

Lemma dedup_filter_first h u pre x post :
  json_stringify (deref h x) ∉ u ->
  json_stringify (deref h x) ∉ map (fun l => json_stringify (deref h l)) pre ->
  x ∈ fst (dedup_filter h u (pre ++ x :: post)).
Proof.
  revert u. induction pre as [|l t IH]; intros u Hu Hp; simpl.
  - destruct (decide _); [contradiction|].
    destruct (dedup_filter h _ post). simpl. left.
  - simpl in Hp. apply not_elem_of_cons in Hp as [Hne Hp].
    destruct (decide _).
    + specialize (IH u Hu Hp). destruct (dedup_filter h u _). exact IH.
    + assert (Hu' : json_stringify (deref h x) ∉ {[json_stringify (deref h l)]} ∪ u).
      { intros Hin. apply elem_of_union in Hin as [Hin|Hin].
        - apply elem_of_singleton in Hin. congruence.
        - contradiction. }
      specialize (IH _ Hu' Hp). destruct (dedup_filter h _ (t ++ x :: post)).
      simpl in *. right. exact IH.
Qed.

Lemma dedup_filter_cover h u data x :
  x ∈ data ->
  json_stringify (deref h x) ∈ u \/
  exists y, y ∈ fst (dedup_filter h u data) /\ json_stringify (deref h y) = json_stringify (deref h x).
Proof.
  revert u. induction data as [|l t IH]; intros u Hx; simpl; [inversion Hx|].
  apply elem_of_cons in Hx.
  destruct (decide _) as [Hin|Hin].
  - destruct Hx as [->|Hx]; [auto|].
    specialize (IH u Hx). destruct (dedup_filter h u t). exact IH.
  - destruct Hx as [->|Hx].
    + right. destruct (dedup_filter h _ t). eexists. split; [left|reflexivity].
    + specialize (IH ({[json_stringify (deref h l)]} ∪ u) Hx).
      destruct (dedup_filter h _ t) as [kept n]. simpl in *.
      destruct IH as [Hin'|(y & Hy & Hk)].
      * apply elem_of_union in Hin' as [Hin'|Hin']; [|auto].
        apply elem_of_singleton in Hin'. right. exists l. split; [left|auto].
      * right. exists y. split; [right; exact Hy|exact Hk].
Qed.

Lemma dedupe_spec data s d s' :
  dedupe data s = inr (d, s') ->
  st_heap s' = st_heap s /\
  d = fst (dedup_filter (st_heap s) ∅ data) /\
  duplicatesRemoved (st_stats s') = (List.length data - List.length d)%nat.
Proof.
  unfold dedupe. intros H. inv_run.
  destruct (dedup_filter (st_heap s0) ∅ data) as [kept n] eqn:E. inv_run.
  cbn. split; [reflexivity|]. split; [reflexivity|]. destruct (st_stats s0); reflexivity.
Qed.

(** X3: deduplication keeps a subsequence of the rows whose JSON
    serializations are pairwise distinct; the first row of each
    serialization is kept, every dropped row has a kept row with the same
    serialization, the rows are not modified and [duplicatesRemoved] is the
    number of rows dropped. *)
Theorem dedupe_keeps_first_occurrences data s d s' :
  dedupe data s = inr (d, s') ->
  d `sublist_of` data /\
  NoDup (map (fun l => json_stringify (deref (st_heap s) l)) d) /\
  (forall pre x post, data = (pre ++ x :: post)%list ->
     json_stringify (deref (st_heap s) x) ∉ map (fun l => json_stringify (deref (st_heap s) l)) pre ->
     x ∈ d) /\
  (forall x, x ∈ data -> exists y, y ∈ d /\
     json_stringify (deref (st_heap s) y) = json_stringify (deref (st_heap s) x)) /\
  st_heap s' = st_heap s /\
  duplicatesRemoved (st_stats s') = (List.length data - List.length d)%nat.
Proof.
  intros H. destruct (dedupe_spec _ _ _ _ H) as (Hh & -> & Hn).
  split; [apply dedup_filter_sublist|].
  split; [apply dedup_filter_fresh|].
  split; [intros pre x post -> Hp; apply dedup_filter_first; [apply not_elem_of_empty|exact Hp]|].
  split; [|auto].
  intros x Hx. destruct (dedup_filter_cover (st_heap s) ∅ data x Hx) as [C|C]; [|exact C].
  apply not_elem_of_empty in C. contradiction.
Qed.

Lemma filter_full_list {A} (f : A -> bool) l :
  (forall x, In x l -> f x = true) -> List.filter f l = l.
Proof.
  induction l as [|x t IH]; simpl; intros H; [reflexivity|].
  rewrite H by auto. rewrite IH by auto. reflexivity.
Qed.

(** X1: every character of a cleaned column name is a lowercase ASCII
    letter, a digit or an underscore. *)
Theorem clean_column_name_charset col c :
  In c (list_ascii_of_string (clean_column_name col)) ->
  (97 <= nat_of_ascii c <= 122)%nat \/ (48 <= nat_of_ascii c <= 57)%nat \/ c = "_"%char.
Proof.
  intros Hc. pose proof (clean_column_name_chars col) as F.
  eapply List.Forall_forall in F; [|exact Hc]. revert F.
  unfold is_clean_char, is_lower, is_digit, code.
  destruct (Nat.eqb_spec (nat_of_ascii c) 95) as [E|E].
  - intros _. right. right. rewrite <- (ascii_nat_embedding c), E. reflexivity.
  - nat_bool.
Qed.

(** X2: cleaning an already cleaned column name returns it unchanged. *)
Theorem clean_column_name_idempotent col :
  clean_column_name (clean_column_name col) = clean_column_name col.
Proof.
  pose proof (clean_column_name_chars col) as F.
  unfold clean_column_name at 1. set (cs := list_ascii_of_string (clean_column_name col)) in *.
  rewrite (map_ext_in _ (fun c => c)), map_id.
  2:{ intros c Hc. apply is_clean_char_lower. exact (proj1 (List.Forall_forall _ _) F c Hc). }
  rewrite collapse_ws_id.
  2:{ apply List.Forall_forall. intros c Hc. apply is_clean_char_not_ws.
      exact (proj1 (List.Forall_forall _ _) F c Hc). }
  rewrite filter_full_list.
  - subst cs. apply string_of_list_ascii_of_string.
  - intros c Hc. apply is_clean_char_word. exact (proj1 (List.Forall_forall _ _) F c Hc).
Qed.

(** ** Mean and median replacement values lie within the column's range *)

Section Range.
Local Open Scope Q_scope.












End Range.


Lemma list_ascii_of_string_app (s1 s2 : string) :
  list_ascii_of_string (s1 ++ s2) = (list_ascii_of_string s1 ++ list_ascii_of_string s2)%list.
Proof. induction s1 as [|c t IH]; simpl; [reflexivity|]. rewrite IH. reflexivity. Qed.

Lemma string_of_list_ascii_app (l1 l2 : list ascii) :
  string_of_list_ascii (l1 ++ l2) = (string_of_list_ascii l1 ++ string_of_list_ascii l2)%string.
Proof. induction l1 as [|c t IH]; simpl; [reflexivity|]. rewrite IH. reflexivity. Qed.


(** Scanning characters that are neither [/] nor [.] before any dot was
    seen: at most [end] is set. *)
Lemma extname_loop_no_dot p k st :
  (forall j, (j < k)%nat -> nth j p " "%char <> "/"%char /\ nth j p " "%char <> "."%char) ->
  startDot st = (-1)%Z -> startDot (extname_loop p k st) = (-1)%Z.
Proof.
  revert st. induction k as [|i IH]; intros st Hj Hs; simpl; [exact Hs|].
  destruct (Hj i ltac:(lia)) as [H1 H2].
  apply Ascii.eqb_neq in H1, H2. rewrite H1, H2.
  apply IH; [intros j Hji; apply Hj; lia|].
  destruct (end_ st =? -1)%Z; simpl; rewrite ?Hs; simpl; try reflexivity; exact Hs.
Qed.

(** The extension characters, scanned first. *)
Lemma extname_loop_ext p nb n st :
  (forall j, (nb <= j < n)%nat -> nth j p " "%char <> "/"%char /\ nth j p " "%char <> "."%char) ->
  startDot st = (-1)%Z -> preDotState st = 0%Z -> startPart st = 0%Z ->
  end_ st <> (-1)%Z -> matchedSlash st = false ->
  (nb <= n)%nat -> extname_loop p n st = extname_loop p nb st.
Proof.
  intros Hj Hs Hp Hsp He Hm. induction n as [|i IH]; intros Hn.
  - replace nb with O by lia. reflexivity.
  - destruct (Nat.eq_dec nb (S i)) as [->|Hne]; [reflexivity|].
    simpl. destruct (Hj i ltac:(lia)) as [H1 H2].
    apply Ascii.eqb_neq in H1, H2. rewrite H1, H2.
    apply Z.eqb_neq in He. rewrite He, Hs. simpl.
    destruct st. apply IH; [intros j Hj'; apply Hj; lia|lia].
Qed.

(** The characters before the last dot, scanned last. *)
Lemma extname_loop_base p k st :
  (forall j, (j < k)%nat -> nth j p " "%char <> "/"%char) ->
  startDot st <> (-1)%Z -> end_ st <> (-1)%Z ->
  let st' := extname_loop p k st in
  startDot st' = startDot st /\ end_ st' = end_ st /\ startPart st' = startPart st /\
  preDotState st' = (match k with
                     | O => preDotState st
                     | S _ => if Ascii.eqb (nth 0 p " "%char) "."%char then 1%Z else (-1)%Z
                     end).
Proof.
  revert st. induction k as [|i IH]; intros st Hj Hs He; simpl; [auto|].
  assert (H1 := Hj i ltac:(lia)). apply Ascii.eqb_neq in H1. rewrite H1.
  apply Z.eqb_neq in He, Hs. rewrite He.
  destruct (Ascii.eqb (nth i p " "%char) "."%char) eqn:D.
  - rewrite Hs. destruct (negb (preDotState st =? 1)%Z) eqn:P.
    + destruct (IH (mkExt (startDot st) (startPart st) (end_ st) (matchedSlash st) 1))
        as (A & B & C & E); [intros j Hj'; apply Hj; lia|simpl; lia|simpl; lia|].
      simpl in *. split; [auto|]. split; [auto|]. split; [auto|]. rewrite E.
      destruct i; [|reflexivity]. rewrite D. reflexivity.
    + destruct (IH st) as (A & B & C & E); [intros j Hj'; apply Hj; lia|lia|lia|].
      split; [auto|]. split; [auto|]. split; [auto|]. rewrite E.
      destruct i; [|reflexivity]. rewrite D.
      apply negb_false_iff, Z.eqb_eq in P. exact P.
  - simpl. rewrite Hs. simpl.
    destruct (IH (mkExt (startDot st) (startPart st) (end_ st) (matchedSlash st) (-1)))
      as (A & B & C & E); [intros j Hj'; apply Hj; lia|simpl; lia|simpl; lia|].
    simpl in *. split; [auto|]. split; [auto|]. split; [auto|]. rewrite E.
    destruct i; [|reflexivity]. rewrite D. reflexivity.
Qed.

Lemma no_char_nth c l j : no_char c l -> (j < List.length l)%nat -> nth j l " "%char <> c.
Proof.
  intros F Hj. unfold no_char in F. eapply List.Forall_forall in F; [exact F|].
  apply nth_In. exact Hj.
Qed.

Lemma extname_loop_plain p i st :
  nth i p " "%char <> "/"%char -> nth i p " "%char <> "."%char -> startDot st = (-1)%Z ->
  extname_loop p (S i) st =
  extname_loop p i (if (end_ st =? -1)%Z
                    then mkExt (startDot st) (startPart st) (Z.of_nat i + 1) false (preDotState st)
                    else st).
Proof.
  intros H1 H2 Hs. apply Ascii.eqb_neq in H1, H2. cbn [extname_loop]. rewrite H1, H2.
  destruct (end_ st =? -1)%Z; simpl; rewrite Hs; reflexivity.
Qed.

Lemma extname_loop_split base ext :
  no_char "/"%char base -> no_char "/"%char ext -> no_char "."%char ext ->
  let p := (base ++ "."%char :: ext)%list in
  let st := extname_loop p (List.length p) ext_init in
  startDot st = Z.of_nat (List.length base) /\ end_ st = Z.of_nat (List.length p) /\
  startPart st = 0%Z /\
  preDotState st = (match base with
                    | [] => 0%Z
                    | c :: _ => if Ascii.eqb c "."%char then 1%Z else (-1)%Z
                    end).
Proof.
  intros Bs Es Ed p st.
  assert (Hlen : List.length p = (List.length base + 1 + List.length ext)%nat)
    by (subst p; rewrite length_app; simpl; lia).
  assert (Hbase : forall j, (j < List.length base)%nat -> nth j p " "%char = nth j base " "%char)
    by (intros j Hj; subst p; apply app_nth1; exact Hj).
  assert (Hdot : nth (List.length base) p " "%char = "."%char)
    by (subst p; rewrite app_nth2 by lia; rewrite Nat.sub_diag; reflexivity).
  assert (Hext : forall j, (List.length base < j < List.length p)%nat ->
             nth j p " "%char <> "/"%char /\ nth j p " "%char <> "."%char).
  { intros j Hj. subst p. rewrite app_nth2 by lia.
    replace (j - List.length base)%nat with (S (j - List.length base - 1)) by lia. simpl.
    split; apply no_char_nth; auto; rewrite length_app in Hj; simpl in Hj; lia. }
  (* the state when the scan reaches the last dot *)
  set (stE := if (List.length ext =? 0)%nat then ext_init
              else mkExt (-1) 0 (Z.of_nat (List.length p)) false 0).
  assert (HE : st = extname_loop p (S (List.length base)) stE).
  { subst st stE. destruct (Nat.eqb_spec (List.length ext) 0) as [E0|E0].
    - rewrite Hlen, E0, Nat.add_0_r, Nat.add_1_r. reflexivity.
    - rewrite Hlen. replace (List.length base + 1 + List.length ext)%nat with (S (List.length base + List.length ext)) by lia.
      destruct (Hext (List.length base + List.length ext)%nat ltac:(lia)) as [H1 H2].
      rewrite extname_loop_plain by auto. cbn [end_ startDot startPart preDotState ext_init Z.eqb Pos.eqb].
      try replace (S (List.length base + List.length ext)) with (List.length p) by lia.
      try replace (Z.of_nat (List.length base + List.length ext) + 1)%Z with (Z.of_nat (List.length p)) by lia.
      apply extname_loop_ext; simpl; try lia; try reflexivity.
      intros j Hj. apply Hext. lia. }
  rewrite HE. cbn [extname_loop]. rewrite Hdot. cbn.
  assert (Hend : end_ (if (end_ stE =? -1)%Z
                       then mkExt (startDot stE) (startPart stE) (Z.of_nat (List.length base) + 1) false (preDotState stE)
                       else stE) = Z.of_nat (List.length p)).
  { subst stE. destruct (Nat.eqb_spec (List.length ext) 0) as [E0|E0]; simpl; [lia|].
    destruct (Z.eqb_spec (Z.of_nat (List.length p)) (-1)); simpl; lia. }
  set (st1 := if (end_ stE =? -1)%Z then _ else _) in *.
  assert (Hs1 : startDot st1 = (-1)%Z /\ startPart st1 = 0%Z /\ preDotState st1 = 0%Z).
  { subst st1 stE. destruct (Nat.eqb_spec (List.length ext) 0); simpl; [auto|].
    destruct (Z.eqb_spec (Z.of_nat (List.length p)) (-1)); simpl; auto. }
  destruct Hs1 as (Hs1 & Hp1 & Hd1). rewrite Hs1. simpl.
  destruct (extname_loop_base p (List.length base) (mkExt (Z.of_nat (List.length base)) (startPart st1) (end_ st1) (matchedSlash st1) (preDotState st1)))
    as (A & B & C & D).
  { intros j Hj. rewrite Hbase by exact Hj. apply no_char_nth; auto. }
  { simpl. lia. }
  { simpl. rewrite Hend. lia. }
  simpl in A, B, C, D. rewrite A, B, C, D, Hend, Hp1. split; [reflexivity|].
  split; [reflexivity|]. split; [reflexivity|].
  destruct base as [|c t]; simpl; [exact Hd1|].
  reflexivity.
Qed.

Lemma extname_no_dot (s : string) :
  no_char "/"%char (list_ascii_of_string s) -> no_char "."%char (list_ascii_of_string s) ->
  extname s = "".
Proof.
  intros Hs Hd. unfold extname.
  rewrite (extname_loop_no_dot _ _ ext_init); [reflexivity| |reflexivity].
  intros j Hj. split; apply no_char_nth; auto.
Qed.

Lemma extname_last_dot (base ext : string) :
  no_char "/"%char (list_ascii_of_string base) -> no_char "/"%char (list_ascii_of_string ext) ->
  no_char "."%char (list_ascii_of_string ext) ->
  extname (base ++ "." ++ ext) =
    if String.eqb base "" || (String.eqb base "." && String.eqb ext "") then ""
    else ("." ++ ext)%string.
Proof.
  intros Bs Es Ed. unfold extname.
  rewrite list_ascii_of_string_app.
  change (list_ascii_of_string ("." ++ ext)) with ("."%char :: list_ascii_of_string ext).
  destruct (extname_loop_split _ _ Bs Es Ed) as (A & B & C & D).
  rewrite A, B, C, D. rewrite length_app. cbn [List.length].
  set (lb := List.length (list_ascii_of_string base)).
  set (le := List.length (list_ascii_of_string ext)).
  destruct base as [|c t].
  - simpl. reflexivity.
  - assert (Hlb : lb = S (List.length (list_ascii_of_string t))) by reflexivity.
    cbn [list_ascii_of_string].
    replace (Z.of_nat lb =? -1)%Z with false by (symmetry; apply Z.eqb_neq; lia).
    replace (Z.of_nat (lb + S le) =? -1)%Z with false by (symmetry; apply Z.eqb_neq; lia).
    assert (Hsl : js_slice (String c t ++ "." ++ ext) (Z.to_nat (Z.of_nat lb)) (Z.to_nat (Z.of_nat (lb + S le)))
                  = ("." ++ ext)%string).
    { unfold js_slice. rewrite !Nat2Z.id. rewrite list_ascii_of_string_app.
      replace (lb + S le - lb)%nat with (S le) by lia. unfold lb. rewrite drop_app_length.
      change (list_ascii_of_string ("." ++ ext)) with ("."%char :: list_ascii_of_string ext).
      rewrite firstn_all2 by (simpl; lia). simpl. rewrite string_of_list_ascii_of_string. reflexivity. }
    rewrite Hsl.
    destruct (Ascii.eqb_spec c "."%char) as [->|Hc].
    + replace (Z.of_nat lb =? Z.of_nat (lb + S le) - 1)%Z with (le =? 0)%nat.
      2:{ destruct (Nat.eqb_spec le 0), (Z.eqb_spec (Z.of_nat lb) (Z.of_nat (lb + S le) - 1)); auto; lia. }
      replace (Z.of_nat lb =? 0 + 1)%Z with (lb =? 1)%nat.
      2:{ destruct (Nat.eqb_spec lb 1), (Z.eqb_spec (Z.of_nat lb) (0 + 1)); auto; lia. }
      assert (E1 : (lb =? 1)%nat = String.eqb (String "." t) ".")
        by (unfold lb; destruct t; reflexivity).
      assert (E2 : (le =? 0)%nat = String.eqb ext "") by (unfold le; destruct ext; reflexivity).
      rewrite E1, E2. cbn [Ascii.eqb Bool.eqb Z.eqb Pos.eqb orb andb].
      rewrite (andb_comm (String.eqb ext "")). reflexivity.
    + replace (Ascii.eqb c ".") with false by (symmetry; apply Ascii.eqb_neq; exact Hc).
      simpl. destruct (Ascii.eqb_spec c "."%char); [contradiction|].
      destruct (ascii_dec c "."%char); [contradiction|]. simpl.
      destruct (String.eqb (String c t) "."); reflexivity.
Qed.

Lemma last_dot_split (l : list ascii) :
  In "."%char l -> exists b e, l = (b ++ "."%char :: e)%list /\ no_char "."%char e.
Proof.
  induction l as [|x t IH]; intros H; [inversion H|].
  destruct (in_dec ascii_dec "."%char t) as [Ht|Ht].
  - destruct (IH Ht) as (b & e & -> & He). exists (x :: b), e. split; [reflexivity|exact He].
  - destruct H as [Hx|H]; [|contradiction].
    exists [], t. split; [rewrite Hx; reflexivity|].
    apply List.Forall_forall. intros y Hy Hyd. rewrite Hyd in Hy. contradiction.
Qed.

Lemma no_char_app c l1 l2 : no_char c (l1 ++ l2) -> no_char c l1 /\ no_char c l2.
Proof. unfold no_char. rewrite List.Forall_app. auto. Qed.

Lemma js_toLowerCase_dot (s : string) :
  js_toLowerCase ("." ++ s) = ("." ++ js_toLowerCase s)%string.
Proof. reflexivity. Qed.

Lemma allowed_ext_dot (s : string) :
  existsb (String.eqb ("." ++ s)) [".csv"; ".xls"; ".xlsx"] = true <->
  In s ["csv"; "xls"; "xlsx"].
Proof.
  simpl. rewrite !orb_true_iff.
  repeat rewrite String.eqb_eq. split.
  - simpl. intros [H|[H|[H|H]]]; subst; auto; discriminate.
  - simpl. intros [<-|[<-|[<-|[]]]]; auto.
Qed.

(** X5: for a file name without [/], the upload filter accepts exactly the
    names [base.ext] with a non-empty [base], no dot in [ext] and [ext]
    equal to csv, xls or xlsx in any letter case. *)
Theorem file_filter_accepts (name : string) :
  no_char "/"%char (list_ascii_of_string name) ->
  file_filter name = Accept <->
  exists base ext, name = (base ++ "." ++ ext)%string /\ base <> "" /\
    no_char "."%char (list_ascii_of_string ext) /\
    In (js_toLowerCase ext) ["csv"; "xls"; "xlsx"].
Proof.
  intros Hs. unfold file_filter. split.
  - destruct (in_dec ascii_dec "."%char (list_ascii_of_string name)) as [Hd|Hd].
    + destruct (last_dot_split _ Hd) as (b & e & Hsplit & He).
      assert (Hn : name = (string_of_list_ascii b ++ "." ++ string_of_list_ascii e)%string).
      { rewrite <- (string_of_list_ascii_of_string name), Hsplit.
        rewrite string_of_list_ascii_app. reflexivity. }
      rewrite Hsplit in Hs. apply no_char_app in Hs as [Hb He'].
      apply List.Forall_cons_iff in He' as [_ He''].
      rewrite Hn, extname_last_dot; [|rewrite list_ascii_of_string_of_list_ascii; auto..].
      destruct (_ || _) eqn:E; [simpl; intros H; discriminate|].
      rewrite js_toLowerCase_dot.
      destruct (existsb _ _) eqn:X; [|discriminate]. intros _.
      exists (string_of_list_ascii b), (string_of_list_ascii e).
      split; [reflexivity|]. split.
      * intros Hb0. rewrite Hb0 in E. discriminate.
      * split; [rewrite list_ascii_of_string_of_list_ascii; exact He|].
        apply allowed_ext_dot. exact X.
    + rewrite extname_no_dot; [simpl; discriminate|exact Hs|].
      apply List.Forall_forall. intros x Hx ->. contradiction.
  - intros (base & ext & -> & Hb0 & Hext & Hin).
    rewrite list_ascii_of_string_app in Hs. apply no_char_app in Hs as [Hb He'].
    change (list_ascii_of_string ("." ++ ext)) with ("."%char :: list_ascii_of_string ext) in He'.
    apply List.Forall_cons_iff in He' as [_ He''].
    rewrite extname_last_dot by auto.
    replace (String.eqb base "" || (String.eqb base "." && String.eqb ext "")) with false.
    + rewrite js_toLowerCase_dot. apply allowed_ext_dot in Hin. rewrite Hin. reflexivity.
    + apply String.eqb_neq in Hb0. rewrite Hb0. simpl.
      destruct (String.eqb_spec ext ""); [subst ext; simpl in Hin; intuition discriminate|].
      rewrite andb_false_r. reflexivity.
Qed.

(** X6: an accepted upload gets the file type csv, xls or xlsx, in lower
    case. *)
Theorem upload_file_type_accepted (name : string) :
  file_filter name = Accept -> In (upload_file_type name) ["csv"; "xls"; "xlsx"].
Proof.
  unfold file_filter, upload_file_type.
  destruct (existsb _ _) eqn:X; [|discriminate]. intros _.
  simpl in X. rewrite !orb_true_iff, !String.eqb_eq in X.
  destruct X as [->|[->|[->|X]]]; simpl; auto. discriminate.
Qed.


Lemma split_chars_no_dot (l : list ascii) :
  no_char "." l -> split_chars "." l = [l].
Proof.
  induction l as [|c t IH]; intros H; [reflexivity|].
  apply List.Forall_cons_iff in H as [Hc Ht]. simpl.
  destruct (Ascii.eqb_spec c "."); [contradiction|]. rewrite (IH Ht). reflexivity.
Qed.

Lemma split_chars_first (b r : list ascii) :
  no_char "." b -> exists ws, split_chars "." (b ++ "."%char :: r) = b :: ws.
Proof.
  induction b as [|c t IH]; intros H.
  - simpl. eexists. reflexivity.
  - apply List.Forall_cons_iff in H as [Hc Ht]. destruct (IH Ht) as [ws E].
    simpl. destruct (Ascii.eqb_spec c "."); [contradiction|]. rewrite E.
    eexists. reflexivity.
Qed.

Lemma run_clean_stats rows opts cd st :
  run_clean rows opts = inr (cd, st) ->
  rows <> [] /\ (List.length cd <= List.length rows)%nat /\
  totalRows st = List.length rows /\
  totalColumns st = List.length (match rows with [] => [] | r :: _ => own_keys r end) /\
  map original (columnsRenamed st) =
    (if standardizeColumnNames opts then
       match rows with [] => [] | r :: _ => own_keys r end else []) /\
  Forall entry_ok (columnsRenamed st) /\ summary_ok st.
Proof.
  unfold run_clean. destruct (cleanData _ _ _) as [e|[[d st'] h']] eqn:E; [discriminate|].
  intros H. injection H as <- <-.
  destruct rows as [|r t]; [discriminate|].
  pose proof (cleanData_stats _ _ _ _ _ _ E) as (T1 & T2 & T3 & T4 & T5).
  cbn [seq List.hd] in T1, T2, T3. unfold deref in T2, T3. cbn [lookup list_lookup] in T2, T3.
  rewrite length_seq in T1.
  unfold cleanData in E.
  destruct (pipeline _ _ _) as [e|[d0 s']] eqn:P; [discriminate|].
  injection E as <- <- <-. apply pipeline_length in P. rewrite length_seq in P.
  rewrite length_map. repeat split; auto.
Qed.

(** X7: an options value sent as the JSON object of its fields parses back
    to the same options. *)
Theorem options_json_roundtrip (o : options) :
  parse_options (BObj (options_json o)) = Some o.
Proof.
  destruct o as [ro fx sc [| | |] [cv|]]; reflexivity.
Qed.

(** X8: a request body with none of the five option keys parses to the
    defaults (no outlier removal, type fixing and standardization on, mean
    strategy, no constant), whatever other keys it has. *)
Theorem parse_options_defaults (r : row) :
  (forall k, In k ["removeOutliers"; "fixDataTypes"; "standardizeColumnNames";
                   "missingValueStrategy"; "constantValue"] -> prop r k = None) ->
  parse_options (BObj r) = Some default_options.
Proof.
  intros H. unfold parse_options, get.
  rewrite !H by (simpl; tauto). reflexivity.
Qed.

(** X9: the process route answers 400 "Invalid options" and stores
    nothing exactly when the body fails the options schema, whatever the
    store holds for the id. *)
Theorem process_route_rejects_invalid_options getDataset id b :
  parse_options b = None <->
  process_route getDataset id b = (ProcessError 400 "Invalid options", None).
Proof.
  unfold process_route. split.
  - intros ->. reflexivity.
  - destruct (parse_options b) as [o|]; [|reflexivity].
    destruct (getDataset _) as [raw|]; [|discriminate].
    destruct (run_clean raw o) as [e|[cd st]]; discriminate.
Qed.

(** X10: processing a stored dataset with no rows, with valid options,
    answers 500 and stores nothing. *)
Theorem process_route_empty_dataset getDataset id b o :
  parse_options b = Some o -> getDataset (parse_int_string id) = Some [] ->
  process_route getDataset id b = (ProcessError 500 "Failed to process dataset", None).
Proof.
  intros Ho Hg. unfold process_route. rewrite Ho, Hg. reflexivity.
Qed.

(** X11: a successful process answers for the dataset [parseInt(id)], stores
    the cleaned rows and the statistics it returns, previews the first five
    cleaned rows, and the stored raw data was non-empty, counted by
    [totalRows] and not shorter than the cleaned rows. *)
Theorem process_route_success getDataset id b did st preview upd :
  process_route getDataset id b = (Processed did st preview, upd) ->
  did = parse_int_string id /\
  exists o rawData cd,
    parse_options b = Some o /\ getDataset did = Some rawData /\
    run_clean rawData o = inr (cd, st) /\
    upd = Some (did, (cd, st)) /\ preview = firstn 5 cd /\
    rawData <> [] /\ totalRows st = List.length rawData /\
    (List.length cd <= List.length rawData)%nat /\
    List.length preview = Nat.min 5 (List.length cd).
Proof.
  unfold process_route.
  destruct (parse_options b) as [o|] eqn:Ho; [|discriminate].
  destruct (getDataset _) as [raw|] eqn:Hg; [|discriminate].
  destruct (run_clean raw o) as [e|[cd st0]] eqn:Hr; [discriminate|].
  intros H. injection H as <- <- <- <-.
  pose proof (run_clean_stats _ _ _ _ Hr) as (N & L & T & _).
  split; [reflexivity|]. exists o, raw, cd. rewrite length_firstn.
  repeat split; auto.
Qed.

(** X12: after a successful cleaning, [totalRows] and [totalColumns] match
    the row count and the columns the upload route reports for the same
    rows; with standardization the originals of [columnsRenamed] are these
    columns, in order. *)
Theorem upload_summary_matches_stats rawData opts cd st :
  run_clean rawData opts = inr (cd, st) ->
  let '(_, columns, totalRows') := upload_summary rawData in
  totalRows st = totalRows' /\ totalColumns st = List.length columns /\
  (standardizeColumnNames opts = true -> map original (columnsRenamed st) = columns).
Proof.
  intros H. pose proof (run_clean_stats _ _ _ _ H) as (_ & _ & T1 & T2 & T3 & _).
  unfold upload_summary. repeat split; auto.
  intros Hs. rewrite T3, Hs. reflexivity.
Qed.

(** X13: after a successful cleaning, each [columnsRenamed] entry carries the
    cleaned form of its original name and one of the four inferred types,
    and [dataTypeSummary] maps each type to its number of entries. *)
Theorem run_clean_column_summary rawData opts cd st :
  run_clean rawData opts = inr (cd, st) ->
  (forall e, In e (columnsRenamed st) ->
     cleaned e = clean_column_name (original e) /\
     In (type e) ["float"; "integer"; "date"; "string"]) /\
  (forall t, prop (dataTypeSummary st) t =
     let n := List.length (List.filter (fun e => String.eqb (type e) t) (columnsRenamed st)) in
     if (n =? 0)%nat then None else Some n).
Proof.
  intros H. pose proof (run_clean_stats _ _ _ _ H) as (_ & _ & _ & _ & _ & F & S).
  split.
  - intros e He. exact (proj1 (List.Forall_forall _ _) F e He).
  - exact S.
Qed.

(** X14: the download route sends a file only for the format csv (text/csv)
    or xlsx (the spreadsheet type) and a processed dataset with cleaned
    rows, which it sends; the file name is the original name up to its
    first dot, then [_cleaned.] and the format. *)
Theorem download_route_attachment getDataset id format ct filename rows :
  download_route getDataset id format = Attachment ct filename rows ->
  ((format = "csv" /\ ct = "text/csv") \/ (format = "xlsx" /\ ct = xlsx_mime)) /\
  exists d,
    getDataset (parse_int_string id) = Some d /\ isProcessed d = true /\
    cleanedData d = Some rows /\
    (forall b r, no_char "." (list_ascii_of_string b) ->
       originalFileName d = b ++ "." ++ r -> filename = b ++ "_cleaned." ++ format) /\
    (no_char "." (list_ascii_of_string (originalFileName d)) ->
       filename = originalFileName d ++ "_cleaned." ++ format).
Proof.
  unfold download_route.
  destruct (existsb _ _) eqn:Hf; [|discriminate]. cbn [negb].
  destruct (getDataset _) as [d|] eqn:Hg; [|discriminate].
  destruct (isProcessed d) eqn:Hp; [|discriminate].
  destruct (cleanedData d) as [rs|] eqn:Hc; [|discriminate].
  simpl in Hf. rewrite !orb_false_r, !orb_true_iff, !String.eqb_eq in Hf.
  intros H. split.
  - destruct Hf as [->| ->]; simpl in H; injection H as <- _ _; auto.
  - exists d. assert (Hr : rows = rs /\
      filename = match js_split (originalFileName d) "." with
                 | w :: _ => w | [] => "undefined" end ++ "_cleaned." ++ format).
    { destruct (String.eqb format "csv"); injection H as _ <- <-; auto. }
    destruct Hr as [-> Hfn]. repeat split; auto.
    + intros b r Hb Hn. rewrite Hfn, Hn. unfold js_split.
      rewrite list_ascii_of_string_app.
      change (list_ascii_of_string ("." ++ r)) with ("."%char :: list_ascii_of_string r).
      destruct (split_chars_first _ (list_ascii_of_string r) Hb) as [ws ->].
      simpl. rewrite string_of_list_ascii_of_string. reflexivity.
    + intros Hn. rewrite Hfn. unfold js_split. rewrite (split_chars_no_dot _ Hn).
      simpl. rewrite string_of_list_ascii_of_string. reflexivity.
Qed.

Lemma clean_column_name_charset_witness :
  In "_"%char (list_ascii_of_string (clean_column_name "A b")) /\
  ((97 <= nat_of_ascii "_" <= 122)%nat \/ (48 <= nat_of_ascii "_" <= 57)%nat \/ "_"%char = "_"%char).
Proof.
  assert (H : In "_"%char (list_ascii_of_string (clean_column_name "A b"))).
  { vm_compute. right. left. reflexivity. }
  split; [exact H|exact (clean_column_name_charset "A b" "_" H)].
Defined.

Lemma dedupe_keeps_first_occurrences_witness :
  let h := [[("a", CStr "1")]; [("a", CStr "1")]; [("a", CStr "")]] in
  dedupe [0; 1; 2]%nat (mkState h (mkStats 3 1 0 0 [] [] 0))
    = inr ([0; 2]%nat, mkState h (mkStats 3 1 1 0 [] [] 0)) /\
  [0; 2]%nat `sublist_of` [0; 1; 2]%nat /\
  NoDup (map (fun l => json_stringify (deref h l)) [0; 2]%nat) /\
  (forall pre x post, [0; 1; 2]%nat = (pre ++ x :: post)%list ->
     json_stringify (deref h x) ∉ map (fun l => json_stringify (deref h l)) pre ->
     x ∈ [0; 2]%nat) /\
  (forall x, x ∈ [0; 1; 2]%nat -> exists y, y ∈ [0; 2]%nat /\
     json_stringify (deref h y) = json_stringify (deref h x)) /\
  h = h /\ 1%nat = (3 - 2)%nat.
Proof.
  intros h.
  assert (H : dedupe [0; 1; 2]%nat (mkState h (mkStats 3 1 0 0 [] [] 0))
    = inr ([0; 2]%nat, mkState h (mkStats 3 1 1 0 [] [] 0))) by (vm_compute; reflexivity).
  split; [exact H|].
  exact (dedupe_keeps_first_occurrences [0; 1; 2]%nat _ _ _ H).
Defined.


Lemma file_filter_accepts_witness :
  no_char "/"%char (list_ascii_of_string "data.CSV") /\
  (file_filter "data.CSV" = Accept <->
   exists base ext, "data.CSV" = (base ++ "." ++ ext)%string /\ base <> "" /\
     no_char "."%char (list_ascii_of_string ext) /\
     In (js_toLowerCase ext) ["csv"; "xls"; "xlsx"]).
Proof.
  assert (H : no_char "/"%char (list_ascii_of_string "data.CSV")).
  { simpl. repeat constructor; discriminate. }
  split; [exact H|exact (file_filter_accepts "data.CSV" H)].
Defined.

Lemma upload_file_type_accepted_witness :
  file_filter "data.CSV" = Accept /\ In (upload_file_type "data.CSV") ["csv"; "xls"; "xlsx"].
Proof.
  assert (H : file_filter "data.CSV" = Accept) by (vm_compute; reflexivity).
  split; [exact H|exact (upload_file_type_accepted "data.CSV" H)].
Defined.

Lemma parse_options_defaults_witness :
  (forall k, In k ["removeOutliers"; "fixDataTypes"; "standardizeColumnNames";
                   "missingValueStrategy"; "constantValue"] ->
     prop [("datasetName", CStr "q3")] k = None) /\
  parse_options (BObj [("datasetName", CStr "q3")]) = Some default_options.
Proof.
  assert (H : forall k, In k ["removeOutliers"; "fixDataTypes"; "standardizeColumnNames";
                   "missingValueStrategy"; "constantValue"] ->
     prop [("datasetName", CStr "q3")] k = None).
  { intros k Hk. repeat destruct Hk as [<-|Hk]; try reflexivity. contradiction. }
  split; [exact H|exact (parse_options_defaults _ H)].
Defined.

Lemma process_route_empty_dataset_witness :
  parse_options (BObj []) = Some default_options /\
  (fun _ : num => Some ([] : list row)) (parse_int_string "7") = Some [] /\
  process_route (fun _ => Some []) "7" (BObj [])
    = (ProcessError 500 "Failed to process dataset", None).
Proof.
  assert (H1 : parse_options (BObj []) = Some default_options) by reflexivity.
  assert (H2 : (fun _ : num => Some ([] : list row)) (parse_int_string "7") = Some []) by reflexivity.
  split; [exact H1|]. split; [exact H2|].
  exact (process_route_empty_dataset _ "7" _ _ H1 H2).
Defined.

Lemma process_route_success_witness :
  let raw := [[("Unit Price", CStr "2.5")]; [("Unit Price", CStr "")]] in
  let st := mkStats 2 1 0 1 [mkEntry "Unit Price" "unit_price" "float"] [("float", 1%nat)] 0 in
  let cd := [[("unit_price", CNum (Fin (5 # 2)%Q))]; [("unit_price", CNum (Fin (5 # 2)%Q))]] in
  process_route (fun _ => Some raw) "1" (BObj []) = (Processed (Fin 1) st cd, Some (Fin 1, (cd, st))) /\
  (Fin 1 = parse_int_string "1" /\
   exists o rawData cd',
     parse_options (BObj []) = Some o /\ (fun _ : num => Some raw) (Fin 1) = Some rawData /\
     run_clean rawData o = inr (cd', st) /\
     Some (Fin 1, (cd, st)) = Some (Fin 1, (cd', st)) /\ cd = firstn 5 cd' /\
     rawData <> [] /\ totalRows st = List.length rawData /\
     (List.length cd' <= List.length rawData)%nat /\
     List.length cd = Nat.min 5 (List.length cd')).
Proof.
  intros raw st cd.
  assert (H : process_route (fun _ => Some raw) "1" (BObj [])
              = (Processed (Fin 1) st cd, Some (Fin 1, (cd, st)))) by (vm_compute; reflexivity).
  split; [exact H|exact (process_route_success _ "1" (BObj []) _ _ _ _ H)].
Defined.

Lemma upload_summary_matches_stats_witness :
  let raw := [[("Unit Price", CStr "2.5")]; [("Unit Price", CStr "")]] in
  let st := mkStats 2 1 0 1 [mkEntry "Unit Price" "unit_price" "float"] [("float", 1%nat)] 0 in
  let cd := [[("unit_price", CNum (Fin (5 # 2)%Q))]; [("unit_price", CNum (Fin (5 # 2)%Q))]] in
  run_clean raw default_options = inr (cd, st) /\
  let '(_, columns, totalRows') := upload_summary raw in
  totalRows st = totalRows' /\ totalColumns st = List.length columns /\
  (standardizeColumnNames default_options = true -> map original (columnsRenamed st) = columns).
Proof.
  intros raw st cd.
  assert (H : run_clean raw default_options = inr (cd, st)) by (vm_compute; reflexivity).
  split; [exact H|exact (upload_summary_matches_stats _ _ _ _ H)].
Defined.

Lemma run_clean_column_summary_witness :
  let raw := [[("Unit Price", CStr "2.5")]; [("Unit Price", CStr "")]] in
  let st := mkStats 2 1 0 1 [mkEntry "Unit Price" "unit_price" "float"] [("float", 1%nat)] 0 in
  let cd := [[("unit_price", CNum (Fin (5 # 2)%Q))]; [("unit_price", CNum (Fin (5 # 2)%Q))]] in
  run_clean raw default_options = inr (cd, st) /\
  (forall e, In e (columnsRenamed st) ->
     cleaned e = clean_column_name (original e) /\
     In (type e) ["float"; "integer"; "date"; "string"]) /\
  (forall t, prop (dataTypeSummary st) t =
     let n := List.length (List.filter (fun e => String.eqb (type e) t) (columnsRenamed st)) in
     if (n =? 0)%nat then None else Some n).
Proof.
  intros raw st cd.
  assert (H : run_clean raw default_options = inr (cd, st)) by (vm_compute; reflexivity).
  split; [exact H|exact (run_clean_column_summary _ _ _ _ H)].
Defined.

Lemma download_route_attachment_witness :
  let g := fun _ : num => Some (mkStored "sales.2024.csv" true (Some [[("a", CStr "x")]])) in
  download_route g "3" "csv" = Attachment "text/csv" "sales_cleaned.csv" [[("a", CStr "x")]] /\
  ((("csv" = "csv" /\ "text/csv" = "text/csv") \/ ("csv" = "xlsx" /\ "text/csv" = xlsx_mime)) /\
   exists d,
     g (parse_int_string "3") = Some d /\ isProcessed d = true /\
     cleanedData d = Some [[("a", CStr "x")]] /\
     (forall b r, no_char "." (list_ascii_of_string b) ->
        originalFileName d = b ++ "." ++ r -> "sales_cleaned.csv" = b ++ "_cleaned." ++ "csv") /\
     (no_char "." (list_ascii_of_string (originalFileName d)) ->
        "sales_cleaned.csv" = originalFileName d ++ "_cleaned." ++ "csv")).
Proof.
  intros g.
  assert (H : download_route g "3" "csv"
              = Attachment "text/csv" "sales_cleaned.csv" [[("a", CStr "x")]]) by (vm_compute; reflexivity).
  split; [exact H|exact (download_route_attachment _ _ _ _ _ _ H)].
Defined.
